(** * E&P talent evaluator and training simulator

    A shallow embedding of [code/talents.py] (the path evaluator) and
    [code/training.py] (the leveling simulator), with the properties of
    their specification stated and proved over it.

    Conventions of the embedding:
    - a Python [int] is a [Z];
    - a Python [dict] is a [gmap]; the lookup [d[k]] of a missing key is
      the exception [KeyError];
    - a computation that may raise returns a [result]; the exception is
      identified by its class;
    - a [while] loop is driven by fuel, and termination is proved apart. *)

From stdpp Require Import gmap strings list fin_maps finite.
From Stdlib Require Import ZArith Lia Ascii.

Local Open Scope Z_scope.

(** ** Exceptions *)

(** The exception classes the two programs can raise. *)
Inductive exn : Set :=
  | ValueError
  | TypeError
  | KeyError
  | IndexError
  | ZeroDivisionError.

(** The [__name__] of an exception class. *)
Definition exn_name (e : exn) : string :=
  match e with
  | ValueError => "ValueError"
  | TypeError => "TypeError"
  | KeyError => "KeyError"
  | IndexError => "IndexError"
  | ZeroDivisionError => "ZeroDivisionError"
  end.

Inductive result (A : Type) : Type :=
  | Ok (a : A)
  | Raise (e : exn).
Arguments Ok {A} a.
Arguments Raise {A} e.

#[global] Instance result_ret : MRet result := λ A a, Ok a.
#[global] Instance result_bind : MBind result := λ A B f m,
  match m with
  | Ok a => f a
  | Raise e => Raise e
  end.

(** [d[k]] on a dict. *)
Definition getitem `{Countable K} {V} (d : gmap K V) (k : K) : result V :=
  match d !! k with
  | Some v => Ok v
  | None => Raise KeyError
  end.

(** [l[i]] on a list, with Python's negative indices. *)
Definition py_index {A} (l : list A) (i : Z) : result A :=
  let n := Z.of_nat (length l) in
  let j := if i <? 0 then i + n else i in
  if (0 <=? j) && (j <? n) then
    match l !! Z.to_nat j with
    | Some x => Ok x
    | None => Raise IndexError
    end
  else Raise IndexError.

(** [max(xs)] of natural numbers; Python raises [ValueError] on an empty
    argument. *)
Definition py_max (xs : list nat) : result nat :=
  match xs with
  | [] => Raise ValueError
  | x :: rest => Ok (foldl Nat.max x rest)
  end.

(** ** talents.py *)

Module Talents.

(** [class Step(Enum)], members in definition order. *)
Inductive Step : Set :=
  | TALENT
  | ATTACK
  | DEFENSE
  | HEALTH
  | HEAL
  | CRITICAL
  | MANA.

#[global] Instance Step_eq_dec : EqDecision Step.
Proof. solve_decision. Defined.

(** Iterating over the enumeration ([for step in Step]). *)
Definition Step_members : list Step :=
  [TALENT; ATTACK; DEFENSE; HEALTH; HEAL; CRITICAL; MANA].

(** The [value] of a member. *)
Definition Step_value (s : Step) : string :=
  match s with
  | TALENT => "talent"
  | ATTACK => "attack"
  | DEFENSE => "defense"
  | HEALTH => "health"
  | HEAL => "heal"
  | CRITICAL => "critical"
  | MANA => "mana"
  end.

(** [Step.from_text]: the first member of that value; the [IndexError] of
    an empty list of matches is turned into [ValueError]. *)
Definition from_text (text : string) : result Step :=
  match filter (λ v, Step_value v = text) Step_members with
  | v :: _ => Ok v
  | [] => Raise ValueError
  end.

#[global, refine] Instance Step_finite : Finite Step :=
  {| enum := Step_members |}.
Proof.
  - unfold Step_members. apply NoDup_ListNoDup.
    repeat (constructor; [simpl; intuition discriminate|]). constructor.
  - intros []; unfold Step_members;
      repeat first [apply list_elem_of_here | apply list_elem_of_further].
Defined.

(** [class TalentCounter(dict)]: a dict from [Step] to [int]. *)
Abbreviation TalentCounter := (gmap Step Z).

(** [TalentCounter.__init__]: [{step: 0 for step in Step}]. *)
Definition TalentCounter_init : TalentCounter :=
  list_to_map ((λ step, (step, 0)) <$> Step_members).

(** [self[k] += v]: reads [self[k]] first, so a missing key raises. *)
Definition iadd (self : TalentCounter) (k : Step) (v : Z) : result TalentCounter :=
  c ← getitem self k; Ok (<[k := c + v]> self).

(** [for k, v in rhs.items(): self[k] += v]. *)
Fixpoint add_items (self : TalentCounter) (items : list (Step * Z)) : result TalentCounter :=
  match items with
  | [] => Ok self
  | (k, v) :: rest => self' ← iadd self k v; add_items self' rest
  end.

(** The dynamically typed argument of [TalentCounter.add]. *)
Inductive add_rhs : Type :=
  | OfStep (s : Step)
  | OfCounter (t : TalentCounter)
  | OfOther.

(** [TalentCounter.add]; the updated [self] is returned. *)
Definition add (self : TalentCounter) (rhs : add_rhs) : result TalentCounter :=
  match rhs with
  | OfStep s => iadd self s 1
  | OfCounter t => add_items self (map_to_list t)
  | OfOther => Raise TypeError
  end.

(** [class ClassTalents]: [branches] is a list of splits, a split the list
    of the counters of its [branch] elements. *)
Record ClassTalents : Type := {
  name : string;
  count : TalentCounter;
  branches : list (list TalentCounter);
}.

(** [ClassTalents.__init__]: [not name] holds of [None] and of the empty
    string. *)
Definition ClassTalents_init (n : option string) : result ClassTalents :=
  match n with
  | None => Raise ValueError
  | Some n =>
      if decide (n = EmptyString) then Raise ValueError
      else Ok {| name := n; count := TalentCounter_init; branches := [] |}
  end.

(** An element of the XML tree, as [from_xml] reads it: its tag, its
    attribute [name] ([xml.get("name")]), and its child elements. *)
#[local] Unset Elimination Schemes.
Inductive element : Type :=
  | Element (tag : string) (attr_name : option string) (children : list element).
#[local] Set Elimination Schemes.

Definition tag (x : element) : string :=
  match x with Element t _ _ => t end.

Definition attr_name (x : element) : option string :=
  match x with Element _ n _ => n end.

(** [x.findall("*")]: the child elements. *)
Definition children (x : element) : list element :=
  match x with Element _ _ cs => cs end.

(** [x.findall(t)]: the child elements of the tag [t]. *)
Definition findall (x : element) (t : string) : list element :=
  filter (λ c, tag c = t) (children x).

(** [for s in branch.findall("*"): b.add(Step.from_text(s.tag))]; here a
    [ValueError] of [from_text] is not caught. *)
Fixpoint read_branch (b : TalentCounter) (elems : list element) : result TalentCounter :=
  match elems with
  | [] => Ok b
  | s :: rest =>
      st ← from_text (tag s);
      b' ← add b (OfStep st);
      read_branch b' rest
  end.

(** [for branch in step.findall("branch"): ...; split.append(b)]. *)
Fixpoint read_split (split : list TalentCounter) (brs : list element)
  : result (list TalentCounter) :=
  match brs with
  | [] => Ok split
  | branch :: rest =>
      b ← read_branch TalentCounter_init (children branch);
      read_split (split ++ [b]) rest
  end.

(** [for step in xml.findall("*"): ...] of [from_xml]: a child whose tag
    is a stat is counted, a [split] child adds a split, any other child is
    skipped. *)
Fixpoint read_steps (talents : ClassTalents) (steps : list element)
  : result ClassTalents :=
  match steps with
  | [] => Ok talents
  | step :: rest =>
      match st ← from_text (tag step); add (count talents) (OfStep st) with
      | Ok c =>
          read_steps {| name := name talents; count := c;
                        branches := branches talents |} rest
      | Raise ValueError =>
          if decide (tag step = "split") then
            split ← read_split [] (findall step "branch");
            read_steps {| name := name talents; count := count talents;
                          branches := branches talents ++ [split] |} rest
          else read_steps talents rest
      | Raise e => Raise e
      end
  end.

(** [ClassTalents.from_xml]. *)
Definition from_xml (xml : element) : result ClassTalents :=
  talents ← ClassTalents_init (attr_name xml);
  read_steps talents (children xml).

(** The loop of [count_path] over [zip(self.branches, path)]. *)
Fixpoint count_loop (res : TalentCounter) (pairs : list (list TalentCounter * Z))
  : result TalentCounter :=
  match pairs with
  | [] => Ok res
  | (split, where_) :: rest =>
      alt ← py_index split where_;
      res' ← add res (OfCounter alt);
      count_loop res' rest
  end.

(** [ClassTalents.count_path]. *)
Definition count_path (self : ClassTalents) (path : list Z) : result TalentCounter :=
  if decide (length path ≠ length (branches self)) then Raise ValueError
  else
    res ← add TalentCounter_init (OfCounter (count self));
    count_loop res (zip (branches self) path).

(** [Goal = namedtuple("Goal", "cls, priorities")]. *)
Record Goal : Type := {
  cls : ClassTalents;
  priorities : list Step;
}.

(** [step_map[p]]; [None] for a character that is not a key. *)
Definition step_map (p : Ascii.ascii) : option Step :=
  if decide (p = "a"%char) then Some ATTACK
  else if decide (p = "c"%char) then Some CRITICAL
  else if decide (p = "d"%char) then Some DEFENSE
  else if decide (p = "h"%char) then Some HEALTH
  else if decide (p = "l"%char) then Some HEAL
  else if decide (p = "m"%char) then Some MANA
  else if decide (p = "t"%char) then Some TALENT
  else None.

(** The list comprehension of [parse_priorities], over the characters. *)
Fixpoint parse_chars (chars : list Ascii.ascii) : result (list Step) :=
  match chars with
  | [] => Ok []
  | p :: rest =>
      match step_map p with
      | Some s => steps ← parse_chars rest; Ok (s :: steps)
      | None => Raise KeyError
      end
  end.

(** [parse_priorities]. *)
Definition parse_priorities (str : string) : result (list Step) :=
  parse_chars (String.list_ascii_of_string str).

(** [islice(xs, 0, None, 2)] and [islice(xs, 1, None, 2)]. *)
Fixpoint islice_even {A} (xs : list A) : list A :=
  match xs with
  | [] => []
  | x :: rest => x :: islice_odd rest
  end
with islice_odd {A} (xs : list A) : list A :=
  match xs with
  | [] => []
  | _ :: rest => islice_even rest
  end.

(** The list comprehension that builds [goals] in [main]: for each pair,
    [data.classes[n]] is evaluated before [parse_priorities(p)]. *)
Fixpoint build_goals (classes : gmap string ClassTalents) (pairs : list (string * string))
  : result (list Goal) :=
  match pairs with
  | [] => Ok []
  | (n, p) :: rest =>
      c ← getitem classes n;
      prio ← parse_priorities p;
      goals ← build_goals classes rest;
      Ok ({| cls := c; priorities := prio |} :: goals)
  end.

(** [itertools.product(pool, repeat=n)], as a list, in its order (the last
    position varies fastest). *)
Fixpoint product (pool : list Z) (repeat : nat) : list (list Z) :=
  match repeat with
  | O => [[]]
  | S r => x ← pool; (λ tl, x :: tl) <$> product pool r
  end.

(** [{g.cls.name: g.cls.count_path(path) for g in goals}]: later goals
    overwrite earlier ones of the same name. *)
Fixpoint path_counts (goals : list Goal) (path : list Z)
    (acc : gmap string TalentCounter) : result (gmap string TalentCounter) :=
  match goals with
  | [] => Ok acc
  | g :: rest =>
      t ← count_path (cls g) path;
      path_counts rest path (<[name (cls g) := t]> acc)
  end.

(** [results = {path: {...} for path in best_paths}]. *)
Fixpoint build_results (goals : list Goal) (paths : list (list Z))
    (acc : gmap (list Z) (gmap string TalentCounter))
  : result (gmap (list Z) (gmap string TalentCounter)) :=
  match paths with
  | [] => Ok acc
  | path :: rest =>
      d ← path_counts goals path ∅;
      build_results goals rest (<[path := d]> acc)
  end.

(** [results[path][g.cls.name][prio]]. *)
Definition stat_of (results : gmap (list Z) (gmap string TalentCounter))
    (n : string) (prio : Step) (path : list Z) : result Z :=
  d ← getitem results path; t ← getitem d n; getitem t prio.

(** The innermost loop of [main] (over [best_paths]), from the state
    [new_paths], [current_max]; [val] reads the stat of a path. *)
Fixpoint select (val : list Z → result Z) (paths : list (list Z))
    (new_paths : list (list Z)) (current_max : Z) : result (list (list Z)) :=
  match paths with
  | [] => Ok new_paths
  | path :: rest =>
      v ← val path;
      if v >? current_max then select val rest [path] v
      else if v =? current_max then select val rest (new_paths ++ [path]) current_max
      else select val rest new_paths current_max
  end.

(** The body of [for g in goals]: a goal without a priority at this index
    is skipped ([except IndexError: continue]). *)
Definition goal_round (results : gmap (list Z) (gmap string TalentCounter))
    (idx_priority : nat) (g : Goal) (best_paths : list (list Z))
  : result (list (list Z)) :=
  match priorities g !! idx_priority with
  | None => Ok best_paths
  | Some prio => select (stat_of results (name (cls g)) prio) best_paths [] 0
  end.

(** [for g in goals: ...]. *)
Fixpoint goals_round (results : gmap (list Z) (gmap string TalentCounter))
    (idx_priority : nat) (goals : list Goal) (best_paths : list (list Z))
  : result (list (list Z)) :=
  match goals with
  | [] => Ok best_paths
  | g :: rest =>
      best ← goal_round results idx_priority g best_paths;
      goals_round results idx_priority rest best
  end.

(** [for idx_priority in ...: for g in goals: ...]. *)
Fixpoint rounds (results : gmap (list Z) (gmap string TalentCounter))
    (goals : list Goal) (idxs : list nat) (best_paths : list (list Z))
  : result (list (list Z)) :=
  match idxs with
  | [] => Ok best_paths
  | idx_priority :: rest =>
      best ← goals_round results idx_priority goals best_paths;
      rounds results goals rest best
  end.

(** Lines 157-172 of [main]: the elimination filter, from the current
    [best_paths]. *)
Definition eliminate (results : gmap (list Z) (gmap string TalentCounter))
    (goals : list Goal) (best_paths : list (list Z)) : result (list (list Z)) :=
  m ← py_max ((λ g, length (priorities g)) <$> goals);
  rounds results goals (seq 0 m) best_paths.

(** Lines 152-172 of [main], over the candidate paths [best_paths]. *)
Definition evaluate (goals : list Goal) (best_paths : list (list Z))
  : result (list (list Z)) :=
  results ← build_results goals best_paths ∅;
  eliminate results goals best_paths.

(** Lines 152-172 of [main]: the paths that are printed. *)
Definition best_paths_of (goals : list Goal) : result (list (list Z)) :=
  evaluate goals (product [0; 1] 7).

(** [main], from the loaded classes and the positional arguments [goal]. *)
Definition main (classes : gmap string ClassTalents) (goal : list string)
  : result (list (list Z)) :=
  goals ← build_goals classes (zip (islice_even goal) (islice_odd goal));
  best_paths_of goals.

End Talents.

(** ** training.py *)

Module Training.

(** [Step = namedtuple("Step", "xp, chance")]. *)
Record Step : Type := {
  xp : Z;
  chance : Z;
}.

(** The table [steps] of [training.py], by source rarity. *)
Definition steps_table (source : Z) : result Step :=
  if source =? 1 then Ok {| xp := 180; chance := 2 |}
  else if source =? 2 then Ok {| xp := 468; chance := 4 |}
  else Raise KeyError.

(** [math.ceil(a / b)]: the quotient is taken exactly (the program goes
    through a float, which is exact for the XP values at hand, far below
    2^53); division by zero raises. *)
Definition ceil_div (a b : Z) : result Z :=
  if b =? 0 then Raise ZeroDivisionError else Ok (- ((- a) / b)).

(** [do_steps = min(steps, math.ceil(asc[0] / step.xp))]. *)
Definition do_steps_of (steps : Z) (step : Step) (asc0 : Z) : result Z :=
  q ← ceil_div asc0 (xp step); Ok (Z.min steps q).

(** [if random.randrange(100) < do_steps*step.chance: level += 1], with
    [draw] the value of [random.randrange(100)]: the level afterwards. *)
Definition level_after (do_steps : Z) (step : Step) (level : Z) (draw : Z) : Z :=
  if draw <? do_steps * chance step then level + 1 else level.

(** How an iteration of the [while] loop ends. *)
Inductive control : Type :=
  | Break
  | Next (asc : list Z) (level : Z).

(** One iteration of [while asc:], on [asc = asc0 :: rest], with [draw]
    the value of [random.randrange(100)]. [Break] is the path through
    [successes += 1]. *)
Definition body (steps : Z) (step : Step) (asc0 : Z) (rest : list Z)
    (level : Z) (draw : Z) : result control :=
  do_steps ← do_steps_of steps step asc0;
  let level := level_after do_steps step level draw in
  if level =? 8 then Ok Break
  else
    let asc0 := asc0 - do_steps * xp step in
    if asc0 <=? 0 then Ok (Next rest level) else Ok (Next (asc0 :: rest) level).

Section Simulation.

(** The stream of values that [random.randrange(100)] returns after
    [random.seed]; the state of the generator is the number of draws made
    so far. *)
Variable draws : nat → Z.

(** The [while asc:] loop of one run, from the state [asc], [level], with
    [rng] draws made so far. The answer says whether the run was counted
    as a success, and the number of draws made; [None] when the fuel
    runs out. *)
Fixpoint while_asc (fuel : nat) (steps : Z) (step : Step) (asc : list Z)
    (level : Z) (rng : nat) : option (result (bool * nat)) :=
  match asc with
  | [] => Some (Ok (false, rng))
  | asc0 :: rest =>
      match fuel with
      | O => None
      | S fuel' =>
          match body steps step asc0 rest level (draws rng) with
          | Raise e => Some (Raise e)
          | Ok Break => Some (Ok (true, S rng))
          | Ok (Next asc' level') => while_asc fuel' steps step asc' level' (S rng)
          end
      end
  end.

(** [for run in range(num_runs):], with [runs] iterations left. *)
Fixpoint runs_loop (fuel : nat) (ascensions : list Z) (steps : Z) (step : Step)
    (runs : nat) (successes : Z) (rng : nat) : option (result (Z * nat)) :=
  match runs with
  | O => Some (Ok (successes, rng))
  | S runs' =>
      match while_asc fuel steps step ascensions 1 rng with
      | None => None
      | Some (Raise e) => Some (Raise e)
      | Some (Ok (success, rng')) =>
          runs_loop fuel ascensions steps step runs'
            (if success then successes + 1 else successes) rng'
      end
  end.

(** [compute], up to the [print]: the final value of [successes] and the
    number of draws made. [fuel] bounds the iterations of each run. The
    percentage that is printed, [successes/num_runs*100], divides by
    [num_runs]. *)
Definition compute (fuel : nat) (ascensions : list Z) (steps : Z) (num_runs : Z)
    (step : Step) (rng : nat) : option (result (Z * nat)) :=
  match runs_loop fuel ascensions steps step (Z.to_nat num_runs) 0 rng with
  | Some (Ok (successes, rng')) =>
      if num_runs =? 0 then Some (Raise ZeroDivisionError)
      else Some (Ok (successes, rng'))
  | other => other
  end.

(** [main], after the arguments are parsed and the tiers are loaded
    ([tiers] maps a rarity to its ascensions): the generator is seeded
    once, then [compute] runs with batches of 1 and of up to 10. The
    answer holds the two counts of successes. *)
Definition main (fuel : nat) (tiers : gmap Z (list Z)) (goal source num_runs : Z)
  : option (result (Z * Z)) :=
  match step ← steps_table source; asc ← getitem tiers goal; Ok (step, asc) with
  | Raise e => Some (Raise e)
  | Ok (step, ascensions) =>
      match compute fuel ascensions 1 num_runs step 0 with
      | Some (Ok (successes1, rng1)) =>
          match compute fuel ascensions 10 num_runs step rng1 with
          | Some (Ok (successes10, _)) => Some (Ok (successes1, successes10))
          | Some (Raise e) => Some (Raise e)
          | None => None
          end
      | Some (Raise e) => Some (Raise e)
      | None => None
      end
  end.

End Simulation.

End Training.

(** ** talents.py: loading the classes *)

Module TalentsData.
Import Talents.

(** What [Data.from_files] raises: its own [RuntimeError], or the
    exception of a [read], raised again. *)
Inductive load_exn : Set :=
  | RuntimeError
  | Reraised (e : exn).

Inductive load_result (A : Type) : Type :=
  | Loaded (a : A)
  | Failed (e : load_exn).
Arguments Loaded {A} a.
Arguments Failed {A} e.

(** [class Data]: the dict [classes]. *)
Record Data : Type := {
  classes : gmap string ClassTalents;
}.

(** [Data.__init__]. *)
Definition Data_init : Data := {| classes := ∅ |}.

(** [for xml_cls in ...findall("class"): cls = ClassTalents.from_xml(xml_cls);
    self.classes[cls.name] = cls]. *)
Fixpoint read_classes (classes : gmap string ClassTalents) (elems : list element)
  : result (gmap string ClassTalents) :=
  match elems with
  | [] => Ok classes
  | xml_cls :: rest =>
      c ← from_xml xml_cls;
      read_classes (<[name c := c]> classes) rest
  end.

(** [Data.read], on the root element of the parsed file. *)
Definition read (self : Data) (root : element) : result Data :=
  cs ← read_classes (classes self) (findall root "class");
  Ok {| classes := cs |}.

(** [for filename in filenames: data.read(filename)], on the roots of the
    parsed files, in the order of the file names. *)
Fixpoint read_files (data : Data) (roots : list element) : result Data :=
  match roots with
  | [] => Ok data
  | root :: rest => data' ← read data root; read_files data' rest
  end.

(** [Data.from_files]. *)
Definition from_files (roots : list element) : load_result Data :=
  match read_files Data_init roots with
  | Raise e => Failed (Reraised e)
  | Ok data =>
      if decide (classes data = ∅) then Failed RuntimeError else Loaded data
  end.

(** [main], from the roots of [classes.xml] and of the files of [--input]
    and from the positional arguments [goal]. *)
Definition run (roots : list element) (goal : list string)
  : load_result (list (list Z)) :=
  match from_files roots with
  | Failed e => Failed e
  | Loaded data =>
      match main (classes data) goal with
      | Ok best_paths => Loaded best_paths
      | Raise e => Failed (Reraised e)
      end
  end.

End TalentsData.

(** ** training.py: loading the tiers *)

Module TrainingData.
Import Training.

(** An element of the XML tree, with its text. *)
#[local] Unset Elimination Schemes.
Inductive element : Type :=
  | Element (tag : string) (attr_name : option string) (text : option string)
      (children : list element).
#[local] Set Elimination Schemes.

Definition tag (x : element) : string :=
  match x with Element t _ _ _ => t end.

Definition attr_name (x : element) : option string :=
  match x with Element _ n _ _ => n end.

Definition text (x : element) : option string :=
  match x with Element _ _ t _ => t end.

Definition children (x : element) : list element :=
  match x with Element _ _ _ cs => cs end.

(** [x.findall(t)]: the child elements of the tag [t]. *)
Definition findall (x : element) (t : string) : list element :=
  filter (λ c, tag c = t) (children x).

(** [class Tier]. *)
Record Tier : Type := {
  rarity : Z;
  ascensions : list Z;
}.

(** What [Data.from_files] raises. *)
Inductive load_exn : Set :=
  | RuntimeError
  | Reraised (e : exn).

Inductive load_result (A : Type) : Type :=
  | Loaded (a : A)
  | Failed (e : load_exn).
Arguments Loaded {A} a.
Arguments Failed {A} e.

(** [class Data]: the dict [tiers]. *)
Record Data : Type := {
  tiers : gmap Z Tier;
}.

Definition Data_init : Data := {| tiers := ∅ |}.

Section WithInt.

(** Python's [int] on a [str]: the number, or the exception it raises. *)
Variable py_int : string → result Z.

(** [int(x)] on an attribute or a text, which is [None] when missing:
    [int(None)] raises [TypeError]. *)
Definition int_of (x : option string) : result Z :=
  match x with
  | None => Raise TypeError
  | Some str => py_int str
  end.

(** [Tier.__init__]. *)
Definition Tier_init (n : option string) : result Tier :=
  match n with
  | None => Raise ValueError
  | Some n =>
      if decide (n = EmptyString) then Raise ValueError
      else r ← py_int n; Ok {| rarity := r; ascensions := [] |}
  end.

(** [for ascension in ...: tier.ascensions.append(int(ascension.text))]. *)
Fixpoint read_ascensions (asc : list Z) (elems : list element) : result (list Z) :=
  match elems with
  | [] => Ok asc
  | ascension :: rest =>
      v ← int_of (text ascension);
      read_ascensions (asc ++ [v]) rest
  end.

(** [Tier.from_xml]. *)
Definition Tier_from_xml (xml : element) : result Tier :=
  tier ← Tier_init (attr_name xml);
  asc ← read_ascensions (ascensions tier) (findall xml "ascension");
  Ok {| rarity := rarity tier; ascensions := asc |}.

(** [for xml_tier in ...findall("tier"): tier = Tier.from_xml(xml_tier);
    self.tiers[tier.rarity] = tier]. *)
Fixpoint read_tiers (tiers : gmap Z Tier) (elems : list element)
  : result (gmap Z Tier) :=
  match elems with
  | [] => Ok tiers
  | xml_tier :: rest =>
      tier ← Tier_from_xml xml_tier;
      read_tiers (<[rarity tier := tier]> tiers) rest
  end.

(** [Data.read], on the root element of the parsed file. *)
Definition read (self : Data) (root : element) : result Data :=
  ts ← read_tiers (tiers self) (findall root "tier");
  Ok {| tiers := ts |}.

Fixpoint read_files (data : Data) (roots : list element) : result Data :=
  match roots with
  | [] => Ok data
  | root :: rest => data' ← read data root; read_files data' rest
  end.

(** [Data.from_files]. *)
Definition from_files (roots : list element) : load_result Data :=
  match read_files Data_init roots with
  | Raise e => Failed (Reraised e)
  | Ok data =>
      if decide (tiers data = ∅) then Failed RuntimeError else Loaded data
  end.

(** [main], from the roots of [training.xml] and of the files of
    [--input] and from the parsed arguments; [None] when the fuel of a
    run is used up. *)
Definition run (draws : nat → Z) (fuel : nat) (roots : list element)
    (goal source num_runs : Z) : option (load_result (Z * Z)) :=
  match from_files roots with
  | Failed e => Some (Failed e)
  | Loaded data =>
      match main draws fuel (ascensions <$> tiers data) goal source num_runs with
      | None => None
      | Some (Ok r) => Some (Loaded r)
      | Some (Raise e) => Some (Failed (Reraised e))
      end
  end.

End WithInt.

End TrainingData.

(** * The vocabulary of the properties *)

Module TalentsSpec.
Import Talents.

(** A stat tally holds a count for every kind, as [TalentCounter.__init__]
    sets it up. *)
Definition tally (t : TalentCounter) : Prop := ∀ k : Step, is_Some (t !! k).

(** The counts of a tally are not negative. *)
Definition nonneg (t : TalentCounter) : Prop := ∀ k v, t !! k = Some v → 0 ≤ v.

(** The count of a kind, 0 when the kind is missing. *)
Definition stat (t : TalentCounter) (k : Step) : Z := default 0 (t !! k).

(** What the items of a dict add up to for the key [k]. *)
Fixpoint items_sum (k : Step) (items : list (Step * Z)) : Z :=
  match items with
  | [] => 0
  | (k', v) :: rest => (if decide (k' = k) then v else 0) + items_sum k rest
  end.

(** A counter with every kind, and no negative count. *)
Definition counter_ok (t : TalentCounter) : Prop := tally t ∧ nonneg t.

(** The invariant of a class: a name, and counters that are tallies. *)
Definition class_ok (e : ClassTalents) : Prop :=
  name e ≠ EmptyString
  ∧ counter_ok (count e)
  ∧ Forall (Forall counter_ok) (branches e).

(** Every selector of the path is 0 or 1. *)
Definition binary (path : list Z) : Prop := Forall (λ sel, sel = 0 ∨ sel = 1) path.

(** The alternative of a split that a selector picks. *)
Definition selected (split : list TalentCounter) (sel : Z) : TalentCounter :=
  default ∅ (split !! Z.to_nat sel).

(** The sum, over the branch positions, of the count of kind [k] in the
    selected alternative. *)
Fixpoint selected_sum (k : Step) (pairs : list (list TalentCounter * Z)) : Z :=
  match pairs with
  | [] => 0
  | (split, sel) :: rest => stat (selected split sel) k + selected_sum k rest
  end.

(** The largest of [cur] and of the values of [f] on the paths. *)
Definition max_from (f : list Z → Z) (cur : Z) (paths : list (list Z)) : Z :=
  foldl (λ m p, Z.max m (f p)) cur paths.

(** The value a path has under [val], 0 when [val] raises. *)
Definition value_of (val : list Z → result Z) (p : list Z) : Z :=
  match val p with
  | Ok v => v
  | Raise _ => 0
  end.

(** A class as the evaluator needs it: seven branches, each of at least
    the two alternatives, and no negative count. *)
Definition wf_class (e : ClassTalents) : Prop :=
  length (branches e) = 7%nat
  ∧ nonneg (count e)
  ∧ Forall (λ split, (2 ≤ length split)%nat ∧ Forall nonneg split) (branches e).

(** A tally that counts [a] attacks and [d] defenses. *)
Definition tally_of (a d : Z) : TalentCounter :=
  <[ATTACK := a]> (<[DEFENSE := d]> TalentCounter_init).

(** A class with two branches. *)
Definition two_branches : ClassTalents :=
  {| name := "monk"; count := tally_of 1 0;
     branches := [[tally_of 2 0; tally_of 0 0]; [tally_of 0 1; tally_of 1 0]] |}.

(** A class with seven branches. *)
Definition seven_branches : ClassTalents :=
  {| name := "wizard"; count := tally_of 1 0;
     branches := [[tally_of 1 0; tally_of 0 1]; [tally_of 0 1; tally_of 1 0];
                  [tally_of 1 0; tally_of 1 0]; [tally_of 0 0; tally_of 0 1];
                  [tally_of 2 0; tally_of 0 2]; [tally_of 1 0; tally_of 0 1];
                  [tally_of 1 0; tally_of 0 1]] |}.

End TalentsSpec.

Module TrainingSpec.
Import Training.



(** A bound on the iterations of a run: each requirement takes an
    iteration to be removed, and one for every unit of XP above 0. *)
Fixpoint iterations (asc : list Z) : nat :=
  match asc with
  | [] => 0
  | asc0 :: rest => S (Z.to_nat asc0 + iterations rest)
  end.


End TrainingSpec.

Module TalentsSpecMore.
Import Talents TalentsSpec.

(** The counter that counts one [s] and nothing else. *)
Definition unit_counter (s : Step) : TalentCounter := <[s := 1]> TalentCounter_init.

(** The number of the elements whose tag is the value of the kind [k]. *)
Definition tag_count (k : Step) (elems : list element) : Z :=
  Z.of_nat (length (filter (λ c, tag c = Step_value k) elems)).

(** The counter counts the stat children of the element. *)
Definition counts_children (t : TalentCounter) (x : element) : Prop :=
  ∀ k, t !! k = Some (tag_count k (children x)).

(** The split has one counter for each [branch] child of the element, in
    their order, that counts the stat children of the branch. *)
Definition split_of (split : list TalentCounter) (x : element) : Prop :=
  Forall2 counts_children split (findall x "branch").

(** The tag is the value of a kind. *)
Definition stat_tag (t : string) : Prop := ∃ k, Step_value k = t.

(** What [from_xml] needs to return: a name, and nothing but stats in the
    branches of the splits. *)
Definition readable_class (xml : element) : Prop :=
  (∃ n, attr_name xml = Some n ∧ n ≠ EmptyString)
  ∧ Forall (λ sp, Forall (λ br, Forall (λ c, stat_tag (tag c)) (children br))
                    (findall sp "branch"))
      (findall xml "split").

(** The priority code of a kind: the key of the kind in [step_map]. *)
Definition step_code (s : Step) : Ascii.ascii :=
  match s with
  | ATTACK => "a"
  | CRITICAL => "c"
  | DEFENSE => "d"
  | HEALTH => "h"
  | HEAL => "l"
  | MANA => "m"
  | TALENT => "t"
  end%char.

(** The count of the kind [prio] in the tally that the path resolves to
    (0 when the path does not resolve). *)
Definition path_stat (e : ClassTalents) (prio : Step) (p : list Z) : Z :=
  match count_path e p with
  | Ok t => stat t prio
  | Raise _ => 0
  end.

(** The counts of a path in the kinds of a list of priorities, in their
    order. *)
Definition scores (e : ClassTalents) (prios : list Step) (p : list Z) : list Z :=
  (λ prio, path_stat e prio p) <$> prios.

(** The lexicographic order on lists of numbers (of one length): the
    first entry decides, the next one breaks a tie. *)
Fixpoint lex_le (a b : list Z) : Prop :=
  match a, b with
  | x :: a', y :: b' => x < y ∨ (x = y ∧ lex_le a' b')
  | _, _ => True
  end.

(** Rounds of the filter in a row, one for each way to read a value. *)
Fixpoint selects (vals : list (list Z → result Z)) (paths : list (list Z))
  : result (list (list Z)) :=
  match vals with
  | [] => Ok paths
  | val :: rest => best ← select val paths [] 0; selects rest best
  end.

(** The selector is an index of the split, counted from the start or,
    when negative, from the end. *)
Definition in_range (split : list TalentCounter) (sel : Z) : Prop :=
  - Z.of_nat (length split) ≤ sel < Z.of_nat (length split).

#[global] Instance in_range_dec split sel : Decision (in_range split sel).
Proof. unfold in_range. apply _. Defined.

(** A class element: two attacks, an element that is no stat, a split of
    two branches (and an element that is no branch), a talent. *)
Definition sample_class : element :=
  Element "class" (Some "wizard")
    [Element "attack" None []; Element "note" None []; Element "attack" None [];
     Element "split" None
       [Element "branch" None [Element "mana" None []; Element "heal" None []];
        Element "note" None [];
        Element "branch" None [Element "attack" None []]];
     Element "talent" None []].

(** The class of [sample_class]. *)
Definition sample_talents : ClassTalents :=
  {| name := "wizard";
     count := <[TALENT := 1]> (<[ATTACK := 2]> TalentCounter_init);
     branches := [[<[MANA := 1]> (<[HEAL := 1]> TalentCounter_init);
                   <[ATTACK := 1]> TalentCounter_init]] |}.

(** The [class] elements of the files, in the order in which they are
    read. *)
Definition class_elements (roots : list element) : list element :=
  roots ≫= λ root, findall root "class".

(** A file with the class [sample_class]. *)
Definition sample_file : element := Element "classes" None [sample_class].

End TalentsSpecMore.

Module TrainingSpecMore.
Import Training TrainingData.

(** The [tier] elements of the files, in the order in which they are
    read. *)
Definition tier_elements (roots : list element) : list element :=
  roots ≫= λ root, findall root "tier".

(** A reading of decimal digits, for the examples: the digits of a
    string of digits, as a number; [ValueError] on another character. *)
Fixpoint digits (acc : Z) (chars : list Ascii.ascii) : result Z :=
  match chars with
  | [] => Ok acc
  | c :: rest =>
      let d := Z.of_N (Ascii.N_of_ascii c) - 48 in
      if (0 <=? d) && (d <=? 9) then digits (10 * acc + d) rest
      else Raise ValueError
  end.

Definition sample_int (str : string) : result Z :=
  digits 0 (String.list_ascii_of_string str).

(** A file with a tier of rarity 3 and two ascensions. *)
Definition sample_tiers : element :=
  Element "tiers" None None
    [Element "tier" (Some "3") None
       [Element "ascension" None (Some "180") [];
        Element "note" None None [];
        Element "ascension" None (Some "360") []]].

End TrainingSpecMore.

(** * Properties *)

Lemma bind_Ok {A B} (f : A → result B) (m : result A) (b : B) :
  m ≫= f = Ok b ↔ ∃ a, m = Ok a ∧ f a = Ok b.
Proof.
  destruct m as [a|e]; simpl; split.
  - intros H. by exists a.
  - by intros (a' & [= ->] & H).
  - intros H. discriminate H.
  - intros (a' & H & _). discriminate H.
Qed.


Ltac inv_bind H :=
  let a := fresh "a" in
  let Ha := fresh "Ha" in
  apply bind_Ok in H; destruct H as (a & Ha & H).

(** ** The stat tally *)

Module TalentsProofs.
Import Talents TalentsSpec.

Lemma TalentCounter_init_lookup k : TalentCounter_init !! k = Some 0.
Proof. by destruct k. Qed.

Lemma TalentCounter_init_tally : tally TalentCounter_init.
Proof. intros k. rewrite TalentCounter_init_lookup. by eexists. Qed.

Lemma TalentCounter_init_nonneg : nonneg TalentCounter_init.
Proof. intros k v. rewrite TalentCounter_init_lookup. intros [= <-]. lia. Qed.

Lemma iadd_Ok self k v c :
  self !! k = Some c → iadd self k v = Ok (<[k := c + v]> self).
Proof. intros H. unfold iadd, getitem. by rewrite H. Qed.

Lemma iadd_missing self k v : self !! k = None → iadd self k v = Raise KeyError.
Proof. intros H. unfold iadd, getitem. by rewrite H. Qed.

Lemma add_items_spec items : ∀ self,
  (∀ k, k ∈ items.*1 → is_Some (self !! k)) →
  ∃ t, add_items self items = Ok t ∧
       ∀ k, t !! k = (λ c, c + items_sum k items) <$> self !! k.
Proof.
  induction items as [|[k v] items IH]; intros self Hkeys; simpl.
  - exists self. split; [done|]. intros k. destruct (self !! k); simpl; f_equal; lia.
  - destruct (Hkeys k) as [c Hc]; [rewrite fmap_cons; apply list_elem_of_here|].
    rewrite (iadd_Ok _ _ _ _ Hc). simpl.
    destruct (IH (<[k := c + v]> self)) as (t & Ht & Hlook).
    { intros k' Hk'. rewrite lookup_insert. case_decide; [by eexists|].
      apply Hkeys. rewrite fmap_cons. by apply list_elem_of_further. }
    exists t. split; [done|]. intros k'. rewrite Hlook, lookup_insert.
    case_decide as Hk; subst; simpl.
    + rewrite Hc. simpl. f_equal. lia.
    + destruct (self !! k'); simpl; f_equal; lia.
Qed.

Lemma items_sum_absent k items : k ∉ items.*1 → items_sum k items = 0.
Proof.
  induction items as [|[k' v] items IH]; simpl; [done|].
  intros Hk. apply not_elem_of_cons in Hk as [Hne Hk].
  rewrite decide_False by (intros ->; by apply Hne). rewrite IH; [lia|done].
Qed.

Lemma items_sum_NoDup k v items :
  NoDup items.*1 → (k, v) ∈ items → items_sum k items = v.
Proof.
  induction items as [|[k' v'] items IH]; simpl;
    [intros _ Hin; by apply elem_of_nil in Hin|].
  intros Hnd Hin. apply NoDup_cons in Hnd as [Hk' Hnd].
  apply elem_of_cons in Hin as [[= <- <-]|Hin].
  - rewrite decide_True by done. rewrite items_sum_absent; [lia|done].
  - case_decide as Hk.
    + subst k'. exfalso. apply Hk'. apply list_elem_of_fmap. by exists (k, v).
    + rewrite IH; [lia|done..].
Qed.

Lemma items_sum_map_to_list (k : Step) (t : TalentCounter) :
  items_sum k (map_to_list t) = stat t k.
Proof.
  unfold stat. destruct (t !! k) as [v|] eqn:Hk; simpl.
  - apply items_sum_NoDup; [apply NoDup_fst_map_to_list|].
    by apply elem_of_map_to_list.
  - apply items_sum_absent. intros Hin.
    apply list_elem_of_fmap in Hin as ([k' v] & -> & Hin).
    apply elem_of_map_to_list in Hin. simpl in Hk. congruence.
Qed.

(** [self.add(rhs)] for a counter [rhs] whose keys [self] has: every count
    of [self] grows by the count of [rhs]. *)
Lemma add_counter_spec (self rhs : TalentCounter) :
  (∀ k, is_Some (rhs !! k) → is_Some (self !! k)) →
  ∃ t, add self (OfCounter rhs) = Ok t ∧
       ∀ k, t !! k = (λ c, c + stat rhs k) <$> self !! k.
Proof.
  intros Hkeys. simpl.
  destruct (add_items_spec (map_to_list rhs) self) as (t & Ht & Hlook).
  { intros k Hin. apply Hkeys.
    apply list_elem_of_fmap in Hin as ([k' v] & -> & Hin).
    apply elem_of_map_to_list in Hin. by eexists. }
  exists t. split; [done|]. intros k. by rewrite Hlook, items_sum_map_to_list.
Qed.

Lemma add_tally_spec (self rhs : TalentCounter) :
  tally self →
  ∃ t, add self (OfCounter rhs) = Ok t ∧ tally t ∧
       ∀ k, stat t k = stat self k + stat rhs k.
Proof.
  intros Hself. destruct (add_counter_spec self rhs) as (t & Ht & Hlook).
  { intros k _. apply Hself. }
  exists t. split; [done|]. split.
  - intros k. rewrite Hlook. destruct (Hself k) as [c ->]. by eexists.
  - intros k. unfold stat. rewrite Hlook. by destruct (Hself k) as [c ->].
Qed.

(** [self.add(step)] for a single kind. *)
Lemma add_step_spec (self : TalentCounter) (s : Step) :
  tally self →
  ∃ t, add self (OfStep s) = Ok t ∧ tally t ∧
       ∀ k, stat t k = stat self k + (if decide (s = k) then 1 else 0).
Proof.
  intros Hself. destruct (Hself s) as [c Hc]. simpl.
  rewrite (iadd_Ok _ _ _ _ Hc). eexists. split; [done|]. split.
  - intros k. rewrite lookup_insert. case_decide; [by eexists|apply Hself].
  - intros k. unfold stat. rewrite lookup_insert.
    case_decide; subst; simpl; [by rewrite Hc|lia].
Qed.

(** C5. For all stat tallies [t1] and [t2], merging [t2] into [t1]
    succeeds and gives, for every stat kind, the sum of the two counts;
    merging [t1] into [t2] gives the same tally; and the merged tally has
    the keys of [t1], which are the kinds of the closed enumeration, and
    no other. *)
Theorem merge_sum_commutative_closed (t1 t2 : TalentCounter) :
  tally t1 → tally t2 →
  ∃ t, add t1 (OfCounter t2) = Ok t
       ∧ (∀ k, ∃ v1 v2, t1 !! k = Some v1 ∧ t2 !! k = Some v2
                        ∧ t !! k = Some (v1 + v2))
       ∧ add t2 (OfCounter t1) = Ok t
       ∧ dom t = dom t1
       ∧ ∀ k, k ∈ dom t ↔ k ∈ Step_members.
Proof.
  intros H1 H2.
  destruct (add_counter_spec t1 t2) as (t & Ht & Hlook); [intros k _; apply H1|].
  destruct (add_counter_spec t2 t1) as (t' & Ht' & Hlook'); [intros k _; apply H2|].
  assert (Hval : ∀ k, ∃ v1 v2, t1 !! k = Some v1 ∧ t2 !! k = Some v2
                               ∧ t !! k = Some (v1 + v2)).
  { intros k. destruct (H1 k) as [v1 Hv1], (H2 k) as [v2 Hv2].
    exists v1, v2. rewrite Hlook. unfold stat. by rewrite Hv1, Hv2. }
  assert (t' = t) as ->.
  { apply map_eq. intros k. destruct (Hval k) as (v1 & v2 & Hv1 & Hv2 & ->).
    rewrite Hlook'. unfold stat. rewrite Hv1, Hv2. simpl. f_equal. lia. }
  exists t. repeat split; try done.
  - apply set_eq. intros k. rewrite !elem_of_dom.
    destruct (Hval k) as (v1 & v2 & -> & _ & ->). split; by eexists.
  - intros _. destruct k; unfold Step_members;
      repeat first [apply list_elem_of_here | apply list_elem_of_further].
  - intros _. apply elem_of_dom. destruct (Hval k) as (v1 & v2 & _ & _ & ->).
    by eexists.
Qed.

(** A witness of C5: a fresh tally merged with a tally that counts one
    attack. *)
Lemma merge_sum_commutative_closed_witness :
  ∃ t, add TalentCounter_init (OfCounter (<[ATTACK := 1]> TalentCounter_init)) = Ok t
       ∧ (∀ k, ∃ v1 v2, TalentCounter_init !! k = Some v1
                        ∧ (<[ATTACK := 1]> TalentCounter_init) !! k = Some v2
                        ∧ t !! k = Some (v1 + v2))
       ∧ add (<[ATTACK := 1]> TalentCounter_init) (OfCounter TalentCounter_init) = Ok t
       ∧ dom t = dom TalentCounter_init
       ∧ ∀ k, k ∈ dom t ↔ k ∈ Step_members.
Proof.
  apply merge_sum_commutative_closed.
  - apply TalentCounter_init_tally.
  - intros k. rewrite lookup_insert. case_decide; [by eexists|].
    apply TalentCounter_init_tally.
Defined.

(** ** The classes that [from_xml] builds *)

Lemma TalentCounter_init_ok : counter_ok TalentCounter_init.
Proof. split; [apply TalentCounter_init_tally|apply TalentCounter_init_nonneg]. Qed.

Lemma add_step_ok (self : TalentCounter) (s : Step) :
  counter_ok self → ∃ t, add self (OfStep s) = Ok t ∧ counter_ok t.
Proof.
  intros [Htally Hnonneg]. destruct (Htally s) as [c Hc]. simpl.
  rewrite (iadd_Ok _ _ _ _ Hc). eexists. split; [done|]. split.
  - intros k. rewrite lookup_insert. case_decide; [by eexists|apply Htally].
  - intros k v. rewrite lookup_insert. case_decide.
    + intros [= <-]. specialize (Hnonneg s c Hc). lia.
    + apply Hnonneg.
Qed.

Lemma read_branch_ok elems : ∀ b r,
  counter_ok b → read_branch b elems = Ok r → counter_ok r.
Proof.
  induction elems as [|s elems IH]; intros b r Hb H; simpl in H.
  - by injection H as <-.
  - inv_bind H. inv_bind H.
    destruct (add_step_ok b a Hb) as (t & Ht & Hok). simpl in Ht.
    assert (a0 = t) as -> by congruence. by eapply IH.
Qed.

Lemma read_split_ok brs : ∀ split r,
  Forall counter_ok split → read_split split brs = Ok r → Forall counter_ok r.
Proof.
  induction brs as [|branch brs IH]; intros split r Hsplit H; simpl in H.
  - by injection H as <-.
  - inv_bind H. eapply IH; [|exact H]. apply Forall_app. split; [done|].
    constructor; [|constructor].
    eapply read_branch_ok; [apply TalentCounter_init_ok|done].
Qed.

Lemma read_steps_ok steps : ∀ talents e,
  class_ok talents → read_steps talents steps = Ok e → class_ok e.
Proof.
  induction steps as [|step steps IH]; intros talents e Hok H; simpl in H.
  - by injection H as <-.
  - destruct Hok as (Hname & Hcount & Hbr).
    destruct (from_text (tag step)) as [st|err]; simpl in H.
    + destruct (add_step_ok (count talents) st Hcount) as (t & Ht & Htok).
      simpl in Ht. rewrite Ht in H. eapply IH; [|exact H].
      split; [done|]. by split.
    + destruct err; try done. case_decide.
      * inv_bind H. eapply IH; [|exact H].
        split; [done|]. split; [done|]. simpl.
        apply Forall_app. split; [done|]. constructor; [|constructor].
        eapply read_split_ok; [|done]. constructor.
      * eapply IH; [|exact H]. split; [done|]. by split.
Qed.

(** Every class that [from_xml] returns has a name and counters that hold
    every kind, with no negative count. *)
Lemma from_xml_ok (xml : element) (e : ClassTalents) :
  from_xml xml = Ok e → class_ok e.
Proof.
  unfold from_xml. intros H. inv_bind H. eapply read_steps_ok; [|exact H].
  unfold ClassTalents_init in Ha. destruct (attr_name xml) as [n|]; [|done].
  case_decide; [done|]. injection Ha as <-.
  split; [done|]. split; [apply TalentCounter_init_ok|constructor].
Qed.

(** ** Resolving a path *)


Lemma py_index_binary (split : list TalentCounter) (sel : Z) :
  (2 ≤ length split)%nat → sel = 0 ∨ sel = 1 →
  py_index split sel = Ok (selected split sel) ∧ selected split sel ∈ split.
Proof.
  intros Hlen Hsel. unfold py_index, selected.
  assert (Hn : 2 ≤ Z.of_nat (length split)) by lia.
  set (n := Z.of_nat (length split)) in *.
  destruct (split !! Z.to_nat sel) as [x|] eqn:Hx.
  2: { apply lookup_ge_None in Hx. destruct Hsel; subst sel; simpl in Hx; lia. }
  simpl. split; [|by eapply list_elem_of_lookup_2].
  assert ((sel <? 0) = false) as -> by (apply Z.ltb_ge; lia).
  assert ((0 <=? sel) = true) as -> by (apply Z.leb_le; lia).
  assert ((sel <? n) = true) as -> by (apply Z.ltb_lt; lia).
  simpl. by rewrite Hx.
Qed.

Lemma count_loop_spec pairs : ∀ res : TalentCounter,
  tally res →
  Forall (λ sp, (2 ≤ length sp.1)%nat ∧ (sp.2 = 0 ∨ sp.2 = 1)) pairs →
  ∃ t, count_loop res pairs = Ok t ∧ tally t ∧
       ∀ k, stat t k = stat res k + selected_sum k pairs.
Proof.
  induction pairs as [|[split sel] pairs IH]; intros res Hres Hall; simpl.
  - exists res. repeat split; [done|]. intros k. lia.
  - apply Forall_cons in Hall as [[Hlen Hsel] Hall]. simpl in Hlen, Hsel.
    destruct (py_index_binary split sel Hlen Hsel) as [-> _]. simpl.
    destruct (add_tally_spec res (selected split sel) Hres) as (r & Hr & Hrt & Hrs).
    simpl in Hr. rewrite Hr. simpl.
    destruct (IH r Hrt Hall) as (t & Ht & Htt & Hts).
    exists t. repeat split; [done..|]. intros k. rewrite Hts, Hrs. lia.
Qed.

Lemma zip_branches_path (bs : list (list TalentCounter)) (path : list Z) :
  Forall (λ split, (2 ≤ length split)%nat) bs → binary path →
  Forall (λ sp, (2 ≤ length sp.1)%nat ∧ (sp.2 = 0 ∨ sp.2 = 1)) (zip bs path).
Proof.
  intros Hbs. revert path. induction Hbs as [|split bs Hsplit Hbs IH];
    intros path Hpath; [constructor|].
  destruct Hpath as [|sel path Hsel Hpath]; [constructor|].
  simpl. constructor; [done|]. by apply IH.
Qed.

(** The result of [count_path] on a path of the right length. *)
Lemma count_path_spec (e : ClassTalents) (path : list Z) :
  length path = length (branches e) →
  binary path →
  Forall (λ split, (2 ≤ length split)%nat) (branches e) →
  ∃ t, count_path e path = Ok t ∧ tally t ∧
       ∀ k, stat t k = stat (count e) k + selected_sum k (zip (branches e) path).
Proof.
  intros Hlen Hbin Hbr. unfold count_path.
  rewrite decide_False by (intros Hne; by apply Hne).
  destruct (add_tally_spec TalentCounter_init (count e) TalentCounter_init_tally)
    as (r & Hr & Hrt & Hrs).
  rewrite Hr. simpl.
  destruct (count_loop_spec (zip (branches e) path) r Hrt) as (t & Ht & Htt & Hts).
  { by apply zip_branches_path. }
  exists t. repeat split; [done..|]. intros k. rewrite Hts, Hrs.
  unfold stat at 1. rewrite TalentCounter_init_lookup. simpl. lia.
Qed.

(** C6. For an entity with [B] branches, each of at least the two
    alternatives, and a path of length [B] of selectors 0 or 1,
    [count_path] returns a tally (a function: the same arguments give the
    same tally) whose count, for every stat kind, is the entity's base
    count plus the sum over the branch positions of the count in the
    selected alternative. *)
Theorem count_path_is_base_plus_selected (e : ClassTalents) (path : list Z) :
  length path = length (branches e) →
  binary path →
  Forall (λ split, (2 ≤ length split)%nat) (branches e) →
  ∃ t, count_path e path = Ok t ∧
       ∀ k, t !! k = Some (stat (count e) k + selected_sum k (zip (branches e) path)).
Proof.
  intros Hlen Hbin Hbr.
  destruct (count_path_spec e path Hlen Hbin Hbr) as (t & Ht & Htt & Hts).
  exists t. split; [done|]. intros k. rewrite <- Hts. unfold stat.
  by destruct (Htt k) as [v ->].
Qed.

(** A witness of C6: the path (0, 1) through a class with two branches. *)
Lemma count_path_is_base_plus_selected_witness :
  ∃ t, count_path two_branches [0; 1] = Ok t ∧
       ∀ k, t !! k = Some (stat (count two_branches) k
                           + selected_sum k (zip (branches two_branches) [0; 1])).
Proof.
  apply count_path_is_base_plus_selected.
  - reflexivity.
  - repeat constructor; lia.
  - repeat constructor.
Defined.

(** A split with a single branch: the selector 1 is out of its range. *)
Example count_path_short_split :
  count_path {| name := "monk"; count := TalentCounter_init;
                branches := [[TalentCounter_init]] |} [1]
  = Raise IndexError.
Proof. reflexivity. Qed.

(** A negative selector counts from the end of the split. *)
Example count_path_negative_selector :
  count_path two_branches [-1; 0] = count_path two_branches [1; 0].
Proof. reflexivity. Qed.

(** C2, as the code has it. When the number of branches of the entity
    differs from the length of the path, and so when it is smaller,
    [count_path] raises [ValueError]: no prefix of the path is applied. *)
Theorem count_path_length_mismatch (e : ClassTalents) (path : list Z) :
  (length (branches e) < length path)%nat →
  count_path e path = Raise ValueError.
Proof.
  intros Hlt. unfold count_path. rewrite decide_True; [done|lia].
Qed.

(** The evaluator resolves paths of length 7: a goal whose class has
    another number of branches makes it raise. *)
Lemma path_counts_raises goals p g e0 : ∀ acc,
  g ∈ goals → count_path (cls g) p = Raise e0 →
  ∃ e, path_counts goals p acc = Raise e.
Proof.
  induction goals as [|g' goals IH]; intros acc Hg Hraise;
    [by apply elem_of_nil in Hg|].
  simpl. apply elem_of_cons in Hg as [<-|Hg].
  - rewrite Hraise. by eexists.
  - destruct (count_path (cls g') p); simpl; [by apply IH|by eexists].
Qed.

Lemma best_paths_of_mismatch (goals : list Goal) (g : Goal) :
  g ∈ goals → length (branches (cls g)) ≠ 7%nat →
  ∃ e, best_paths_of goals = Raise e.
Proof.
  intros Hg Hlen. unfold best_paths_of, evaluate.
  assert (Hprod : ∃ p rest, product [0; 1] 7 = p :: rest ∧ length p = 7%nat)
    by (vm_compute; eauto).
  destruct Hprod as (p & rest & -> & Hp). cbn [build_results].
  destruct (path_counts_raises goals p g ValueError ∅ Hg) as [e ->]; [|by eexists].
  unfold count_path. rewrite decide_True; [done|congruence].
Qed.

Lemma best_paths_of_mismatch_first (g : Goal) (goals : list Goal) :
  length (branches (cls g)) ≠ 7%nat →
  best_paths_of (g :: goals) = Raise ValueError.
Proof.
  intros Hlen. unfold best_paths_of, evaluate.
  assert (Hprod : ∃ p rest, product [0; 1] 7 = p :: rest ∧ length p = 7%nat)
    by (vm_compute; eauto).
  destruct Hprod as (p & rest & -> & Hp). cbn [build_results path_counts].
  unfold count_path. rewrite decide_True; [done|congruence].
Qed.

(** A witness of C2 as amended: a path of length 7 against a class with
    two branches. *)
Lemma count_path_length_mismatch_witness :
  count_path two_branches [0; 0; 0; 0; 0; 0; 0] = Raise ValueError.
Proof.
  apply count_path_length_mismatch. simpl. lia.
Defined.

(** C2 as stated fails: a class with two branches does not resolve a path
    of length 7 to the tally of its prefix (0, 1), nor to any tally. *)
Lemma count_path_prefix_counterexample :
  (length (branches two_branches) < length [0; 1; 0; 0; 0; 0; 0])%nat
  ∧ (∃ t, count_path two_branches [0; 1] = Ok t)
  ∧ ¬ ∃ t, count_path two_branches [0; 1; 0; 0; 0; 0; 0] = Ok t.
Proof.
  split; [simpl; lia|]. split.
  - destruct (count_path two_branches [0; 1]) eqn:E; [by eexists|].
    vm_compute in E. discriminate E.
  - intros [t Ht]. vm_compute in Ht. discriminate Ht.
Qed.

(** ** The elimination filter *)

Lemma max_from_cons f cur p paths :
  max_from f cur (p :: paths) = max_from f (Z.max cur (f p)) paths.
Proof. reflexivity. Qed.

Lemma max_from_ge_cur f paths : ∀ cur, cur ≤ max_from f cur paths.
Proof.
  induction paths as [|p paths IH]; intros cur; [unfold max_from; simpl; lia|].
  rewrite max_from_cons. specialize (IH (Z.max cur (f p))). lia.
Qed.

Lemma max_from_ge f paths : ∀ cur p, p ∈ paths → f p ≤ max_from f cur paths.
Proof.
  induction paths as [|q paths IH]; intros cur p Hp; [by apply elem_of_nil in Hp|].
  rewrite max_from_cons. apply elem_of_cons in Hp as [->|Hp].
  - pose proof (max_from_ge_cur f paths (Z.max cur (f q))) as H. lia.
  - by apply IH.
Qed.

Lemma max_from_attained f paths : ∀ cur,
  max_from f cur paths = cur ∨ ∃ p, p ∈ paths ∧ f p = max_from f cur paths.
Proof.
  induction paths as [|q paths IH]; intros cur; [by left|].
  rewrite max_from_cons.
  destruct (IH (Z.max cur (f q))) as [H|(p & Hp & H)].
  - rewrite H.
    destruct (Z.max_spec cur (f q)) as [[_ ->]|[_ ->]]; [|by left].
    right. exists q. split; [apply list_elem_of_here|done].
  - right. exists p. split; [by apply list_elem_of_further|done].
Qed.

(** What the loop over [best_paths] computes: the paths of the largest
    value, in their order, after the paths already in [new_paths] when no
    value exceeds [current_max]. *)
Lemma select_spec val f paths : ∀ new cur,
  (∀ p, p ∈ paths → val p = Ok (f p)) →
  select val paths new cur =
    Ok ((if decide (cur < max_from f cur paths) then [] else new)
        ++ filter (λ p, f p = max_from f cur paths) paths).
Proof.
  induction paths as [|p paths IH]; intros new cur Hval.
  - change (max_from f cur []) with cur. cbn [select].
    case_decide; [lia|]. by rewrite app_nil_r.
  - cbn [select]. rewrite (Hval p) by apply list_elem_of_here. simpl mbind.
    assert (Hrest : ∀ q, q ∈ paths → val q = Ok (f q)).
    { intros q Hq. apply Hval. by apply list_elem_of_further. }
    rewrite filter_cons, max_from_cons. cbn beta iota.
    pose proof (max_from_ge_cur f paths (Z.max cur (f p))) as Hge.
    rewrite Z.gtb_ltb. destruct (Z.ltb_spec cur (f p)) as [Hlt|Hle].
    + rewrite (IH _ _ Hrest). replace (Z.max cur (f p)) with (f p) in * by lia.
      repeat case_decide; try lia; done.
    + replace (Z.max cur (f p)) with cur in * by lia.
      destruct (Z.eqb_spec (f p) cur) as [Heq|Hne]; rewrite (IH _ _ Hrest).
      * repeat case_decide; try lia; [done|]. by rewrite <- app_assoc.
      * repeat case_decide; try lia; done.
Qed.

Lemma select_Ok_vals val paths : ∀ new cur r,
  select val paths new cur = Ok r → ∀ p, p ∈ paths → val p = Ok (value_of val p).
Proof.
  induction paths as [|q paths IH]; intros new cur r Hsel p Hp;
    [by apply elem_of_nil in Hp|].
  cbn [select] in Hsel. inv_bind Hsel.
  apply elem_of_cons in Hp as [->|Hp].
  - unfold value_of. by rewrite Ha.
  - repeat case_match; by eapply IH.
Qed.

(** A round from the start ([new_paths = []], [current_max = 0]). *)
Lemma select_start val paths r :
  select val paths [] 0 = Ok r →
  r = filter (λ p, value_of val p = max_from (value_of val) 0 paths) paths.
Proof.
  intros Hsel. pose proof (select_Ok_vals _ _ _ _ _ Hsel) as Hval.
  rewrite (select_spec val (value_of val)) in Hsel by done.
  injection Hsel as <-. by case_decide.
Qed.

Lemma select_sublist val paths r : select val paths [] 0 = Ok r → r `sublist_of` paths.
Proof. intros Hsel. rewrite (select_start _ _ _ Hsel). apply sublist_filter. Qed.

Lemma select_same val paths : ∀ new m,
  (∀ p, p ∈ paths → val p = Ok m) → select val paths new m = Ok (new ++ paths).
Proof.
  induction paths as [|p paths IH]; intros new m Hval; simpl.
  - by rewrite app_nil_r.
  - rewrite (Hval p) by apply list_elem_of_here. simpl.
    rewrite Z.gtb_ltb, Z.ltb_irrefl, Z.eqb_refl, IH.
    + by rewrite <- app_assoc.
    + intros q Hq. apply Hval. by apply list_elem_of_further.
Qed.

Lemma select_const val paths m :
  0 ≤ m → (∀ p, p ∈ paths → val p = Ok m) → select val paths [] 0 = Ok paths.
Proof.
  intros Hm Hval. destruct paths as [|p paths]; [done|].
  cbn [select]. rewrite (Hval p) by apply list_elem_of_here. simpl.
  assert (Hrest : ∀ q, q ∈ paths → val q = Ok m).
  { intros q Hq. apply Hval. by apply list_elem_of_further. }
  rewrite Z.gtb_ltb. destruct (Z.ltb_spec 0 m) as [Hlt|Hle].
  - by rewrite select_same.
  - replace m with 0 in * by lia. simpl. by rewrite select_same.
Qed.

(** A round leaves a set of paths alone that survived the same round
    before, also when the stats are read from another dict that agrees on
    these paths. *)
Lemma select_stable val val' S S1 T :
  select val S [] 0 = Ok S1 →
  T `sublist_of` S1 →
  (∀ p, p ∈ T → val' p = val p) →
  select val' T [] 0 = Ok T.
Proof.
  intros Hsel Hsub Hext.
  pose proof (select_Ok_vals _ _ _ _ _ Hsel) as Hval.
  pose proof (select_start _ _ _ Hsel) as ->.
  apply (select_const val' T (max_from (value_of val) 0 S)).
  - apply max_from_ge_cur.
  - intros p Hp. rewrite (Hext p Hp).
    assert (Hp1 : p ∈ filter (λ p, value_of val p = max_from (value_of val) 0 S) S).
    { by eapply elem_of_sublist. }
    apply list_elem_of_filter in Hp1 as [Heq HpS].
    rewrite (Hval p HpS). by rewrite Heq.
Qed.

Lemma stat_of_ext (results results' : gmap (list Z) (gmap string TalentCounter))
    n prio p :
  results' !! p = results !! p → stat_of results' n prio p = stat_of results n prio p.
Proof. intros H. unfold stat_of, getitem. by rewrite H. Qed.

Lemma goal_round_sublist results idx g S S1 :
  goal_round results idx g S = Ok S1 → S1 `sublist_of` S.
Proof.
  unfold goal_round. destruct (priorities g !! idx) as [prio|].
  - apply select_sublist.
  - by intros [= <-].
Qed.

Lemma goals_round_sublist results idx goals : ∀ S S1,
  goals_round results idx goals S = Ok S1 → S1 `sublist_of` S.
Proof.
  induction goals as [|g goals IH]; intros S S1 H; simpl in H.
  - by injection H as <-.
  - inv_bind H. etrans; [by eapply IH|]. by eapply goal_round_sublist.
Qed.

Lemma rounds_sublist results goals idxs : ∀ S S1,
  rounds results goals idxs S = Ok S1 → S1 `sublist_of` S.
Proof.
  induction idxs as [|idx idxs IH]; intros S S1 H; simpl in H.
  - by injection H as <-.
  - inv_bind H. etrans; [by eapply IH|]. by eapply goals_round_sublist.
Qed.

Lemma eliminate_sublist results goals S S1 :
  eliminate results goals S = Ok S1 → S1 `sublist_of` S.
Proof. unfold eliminate. intros H. inv_bind H. by eapply rounds_sublist. Qed.

Section Stable.

(** Two dicts of results, and a set of paths [T] on which they agree. *)
Variables results results' : gmap (list Z) (gmap string TalentCounter).
Variable T : list (list Z).
Hypothesis agree : ∀ p, p ∈ T → results' !! p = results !! p.

Lemma goal_round_stable idx g S S1 :
  goal_round results idx g S = Ok S1 → T `sublist_of` S1 →
  goal_round results' idx g T = Ok T.
Proof.
  unfold goal_round. destruct (priorities g !! idx) as [prio|]; [|done].
  intros Hsel Hsub. eapply select_stable; [exact Hsel|exact Hsub|].
  intros p Hp. by apply stat_of_ext, agree.
Qed.

Lemma goals_round_stable idx goals : ∀ S S1,
  goals_round results idx goals S = Ok S1 → T `sublist_of` S1 →
  goals_round results' idx goals T = Ok T.
Proof.
  induction goals as [|g goals IH]; intros S S1 H Hsub; simpl in *; [done|].
  inv_bind H. rewrite (goal_round_stable _ _ _ _ Ha).
  - simpl. by eapply IH.
  - etrans; [exact Hsub|]. by eapply goals_round_sublist.
Qed.

Lemma rounds_stable goals idxs : ∀ S S1,
  rounds results goals idxs S = Ok S1 → T `sublist_of` S1 →
  rounds results' goals idxs T = Ok T.
Proof.
  induction idxs as [|idx idxs IH]; intros S S1 H Hsub; simpl in *; [done|].
  inv_bind H. rewrite (goals_round_stable _ _ _ _ Ha).
  - simpl. by eapply IH.
  - etrans; [exact Hsub|]. by eapply rounds_sublist.
Qed.

Lemma eliminate_stable goals S S1 :
  eliminate results goals S = Ok S1 → T `sublist_of` S1 →
  eliminate results' goals T = Ok T.
Proof.
  unfold eliminate. intros H Hsub. inv_bind H. rewrite Ha. simpl.
  by eapply rounds_stable.
Qed.

End Stable.

(** ** The dict of results *)

Lemma path_counts_inv goals p : ∀ acc d,
  path_counts goals p acc = Ok d →
  ∀ n, (d !! n = acc !! n ∧ ∀ g, g ∈ goals → name (cls g) ≠ n)
       ∨ ∃ g t, g ∈ goals ∧ name (cls g) = n
                ∧ count_path (cls g) p = Ok t ∧ d !! n = Some t.
Proof.
  induction goals as [|g goals IH]; intros acc d H n; simpl in H.
  - injection H as <-. left. split; [done|]. intros g Hg. by apply elem_of_nil in Hg.
  - inv_bind H. destruct (IH _ _ H n) as [[Hd Hno]|(g' & t & Hg' & Hn & Ht & Hd)].
    + rewrite lookup_insert in Hd. case_decide as Hname.
      * right. exists g, a. split; [apply list_elem_of_here|done].
      * left. split; [done|]. intros g' Hg'.
        apply elem_of_cons in Hg' as [->|Hg']; [done|by apply Hno].
    + right. exists g', t. split; [by apply list_elem_of_further|done].
Qed.

Lemma path_counts_Ok goals p : ∀ acc,
  (∀ g, g ∈ goals → ∃ t, count_path (cls g) p = Ok t) →
  ∃ d, path_counts goals p acc = Ok d.
Proof.
  induction goals as [|g goals IH]; intros acc Hall; simpl; [by eexists|].
  destruct (Hall g) as [t ->]; [apply list_elem_of_here|]. simpl.
  apply IH. intros g' Hg'. apply Hall. by apply list_elem_of_further.
Qed.

Lemma build_results_inv goals paths : ∀ acc r,
  build_results goals paths acc = Ok r →
  ∀ p, (p ∈ paths ∧ ∃ d, path_counts goals p ∅ = Ok d ∧ r !! p = Some d)
       ∨ ((p ∉ paths) ∧ r !! p = acc !! p).
Proof.
  induction paths as [|q paths IH]; intros acc r H p; simpl in H.
  - injection H as <-. right. split; [apply not_elem_of_nil|done].
  - inv_bind H. destruct (IH _ _ H p) as [[Hp Hd]|[Hp Hr]].
    + left. split; [by apply list_elem_of_further|done].
    + rewrite lookup_insert in Hr. case_decide as Hq.
      * subst q. left. split; [apply list_elem_of_here|]. by exists a.
      * right. split; [|done]. intros Hin.
        apply elem_of_cons in Hin as [->|Hin]; [done|by apply Hp].
Qed.

Lemma build_results_Ok goals paths : ∀ acc,
  (∀ p, p ∈ paths → ∃ d, path_counts goals p ∅ = Ok d) →
  ∃ r, build_results goals paths acc = Ok r.
Proof.
  induction paths as [|q paths IH]; intros acc Hall; simpl; [by eexists|].
  destruct (Hall q) as [d ->]; [apply list_elem_of_here|]. simpl.
  apply IH. intros p Hp. apply Hall. by apply list_elem_of_further.
Qed.

Lemma evaluate_results goals results paths :
  build_results goals paths ∅ = Ok results →
  evaluate goals paths = eliminate results goals paths.
Proof. intros H. unfold evaluate. by rewrite H. Qed.

(** The rounds run again on their own result, over the same dict of
    results, return it. *)
Lemma eliminate_idempotent results goals S0 S :
  eliminate results goals S0 = Ok S → eliminate results goals S = Ok S.
Proof. intros H. by eapply eliminate_stable. Qed.

(** The evaluation run again, over the paths it returned, returns them. *)
Lemma evaluate_idempotent (goals : list Goal) (S : list (list Z)) :
  best_paths_of goals = Ok S → evaluate goals S = Ok S.
Proof.
  unfold best_paths_of, evaluate. intros H. inv_bind H.
  rename a into results, Ha into Hres.
  pose proof (eliminate_sublist _ _ _ _ H) as Hsub.
  assert (Hpc : ∀ p, p ∈ S → ∃ d, path_counts goals p ∅ = Ok d ∧ results !! p = Some d).
  { intros p Hp. destruct (build_results_inv _ _ _ _ Hres p) as [[_ Hd]|[Hno _]]; [done|].
    exfalso. apply Hno. by eapply elem_of_sublist. }
  destruct (build_results_Ok goals S ∅) as [results' Hres'].
  { intros p Hp. destruct (Hpc p Hp) as (d & Hd & _). by exists d. }
  rewrite Hres'. simpl.
  eapply eliminate_stable; [|exact H|done].
  intros p Hp. destruct (Hpc p Hp) as (d & Hd & ->).
  destruct (build_results_inv _ _ _ _ Hres' p) as [[_ (d' & Hd' & ->)]|[Hno _]];
    [congruence|done].
Qed.

(** C7. When the evaluator returns the path set [S] for the goals, the
    whole sequence of elimination rounds run again on [S], for the same
    goals, returns [S], the same paths in the same order: both when the
    rounds read the dict of results of the first run, and when the
    evaluation is run afresh over the candidates [S]. *)
Theorem filter_idempotent (goals : list Goal) (S : list (list Z)) :
  best_paths_of goals = Ok S →
  (∀ results, build_results goals (product [0; 1] 7) ∅ = Ok results →
              eliminate results goals S = Ok S)
  ∧ evaluate goals S = Ok S.
Proof.
  intros H. split; [|by apply evaluate_idempotent].
  intros results Hres. unfold best_paths_of in H.
  rewrite (evaluate_results _ _ _ Hres) in H. by eapply eliminate_idempotent.
Qed.

(** A witness of C7: the class [seven_branches], ranked by defense, then
    attack. *)
Lemma filter_idempotent_witness :
  (∀ results,
     build_results [{| cls := seven_branches; priorities := [DEFENSE; ATTACK] |}]
       (product [0; 1] 7) ∅ = Ok results →
     eliminate results [{| cls := seven_branches; priorities := [DEFENSE; ATTACK] |}]
       [[1; 0; 0; 1; 1; 1; 1]; [1; 0; 1; 1; 1; 1; 1]]
     = Ok [[1; 0; 0; 1; 1; 1; 1]; [1; 0; 1; 1; 1; 1; 1]])
  ∧ evaluate [{| cls := seven_branches; priorities := [DEFENSE; ATTACK] |}]
             [[1; 0; 0; 1; 1; 1; 1]; [1; 0; 1; 1; 1; 1; 1]]
    = Ok [[1; 0; 0; 1; 1; 1; 1]; [1; 0; 1; 1; 1; 1; 1]].
Proof.
  apply filter_idempotent. vm_compute. reflexivity.
Defined.

(** ** Well-formed classes and the candidate paths *)

Lemma product_binary (n : nat) : ∀ p : list Z,
  p ∈ product [0; 1] n ↔ length p = n ∧ binary p.
Proof.
  induction n as [|n IH]; intros p.
  - simpl. rewrite list_elem_of_singleton. split.
    + intros ->. split; [done|constructor].
    + intros [Hlen _]. by destruct p.
  - change (product [0; 1] (S n))
      with ([0; 1] ≫= λ x, (λ tl, x :: tl) <$> product [0; 1] n).
    rewrite list_elem_of_bind. split.
    + intros (x & Hp & Hx). apply list_elem_of_fmap in Hp as (tl & -> & Htl).
      apply IH in Htl as [Hlen Hbin]. split; [simpl; by rewrite Hlen|].
      constructor; [|done].
      apply elem_of_cons in Hx as [->|Hx]; [by left|].
      apply list_elem_of_singleton in Hx as ->. by right.
    + intros [Hlen Hbin]. destruct p as [|x tl]; [done|].
      apply Forall_cons in Hbin as [Hx Hbin]. exists x. split.
      * apply list_elem_of_fmap. exists tl. split; [done|]. apply IH.
        split; [|done]. simpl in Hlen. lia.
      * destruct Hx as [-> | ->];
          [apply list_elem_of_here|apply list_elem_of_further, list_elem_of_here].
Qed.

Lemma stat_nonneg (t : TalentCounter) (k : Step) : nonneg t → 0 ≤ stat t k.
Proof.
  intros Ht. unfold stat. destruct (t !! k) as [v|] eqn:E; simpl; [by eapply Ht|lia].
Qed.

Lemma selected_nonneg (split : list TalentCounter) (sel : Z) : Forall nonneg split → nonneg (selected split sel).
Proof.
  intros Hall. unfold selected.
  destruct (split !! Z.to_nat sel) as [t|] eqn:E; simpl.
  - eapply Forall_forall in Hall; [exact Hall|]. by eapply list_elem_of_lookup_2.
  - intros k v Hk. by rewrite lookup_empty in Hk.
Qed.

Lemma selected_sum_nonneg (k : Step) (bs : list (list TalentCounter)) : ∀ path : list Z,
  Forall (Forall nonneg) bs → 0 ≤ selected_sum k (zip bs path).
Proof.
  induction bs as [|split bs IH]; intros path Hall; [simpl; lia|].
  destruct path as [|sel path]; [simpl; lia|].
  apply Forall_cons in Hall as [Hsplit Hall]. simpl.
  pose proof (stat_nonneg _ k (selected_nonneg split sel Hsplit)).
  specialize (IH path Hall). lia.
Qed.

(** On a well-formed class, every candidate path resolves to a tally
    without a negative count. *)
Lemma count_path_wf (e : ClassTalents) (p : list Z) :
  wf_class e → p ∈ product [0; 1] 7 →
  ∃ t, count_path e p = Ok t ∧ ∀ k, ∃ v, t !! k = Some v ∧ 0 ≤ v.
Proof.
  intros (Hlen & Hbase & Hbr) Hp. apply product_binary in Hp as [Hplen Hbin].
  destruct (count_path_spec e p) as (t & Ht & Htt & Hts).
  - by rewrite Hlen.
  - done.
  - eapply Forall_impl; [exact Hbr|]. by intros split [? _].
  - exists t. split; [done|]. intros k. destruct (Htt k) as [v Hv]. exists v.
    split; [done|]. specialize (Hts k). unfold stat at 1 in Hts. rewrite Hv in Hts.
    simpl in Hts. rewrite Hts.
    pose proof (stat_nonneg _ k Hbase).
    pose proof (selected_sum_nonneg k (branches e) p) as Hsum.
    assert (0 ≤ selected_sum k (zip (branches e) p)); [|lia].
    apply Hsum. eapply Forall_impl; [exact Hbr|]. by intros split [_ ?].
Qed.

(** The results that [main] computes for well-formed goals: every stat of
    every candidate path can be read, and is not negative. *)
Lemma results_wf (goals : list Goal) :
  Forall (λ g, wf_class (cls g)) goals →
  ∃ results, build_results goals (product [0; 1] 7) ∅ = Ok results ∧
    ∀ g prio p, g ∈ goals → p ∈ product [0; 1] 7 →
      ∃ g' t v, g' ∈ goals ∧ name (cls g') = name (cls g)
                ∧ count_path (cls g') p = Ok t ∧ t !! prio = Some v ∧ 0 ≤ v
                ∧ stat_of results (name (cls g)) prio p = Ok v.
Proof.
  intros Hwf.
  assert (Hcp : ∀ g p, g ∈ goals → p ∈ product [0; 1] 7 →
            ∃ t, count_path (cls g) p = Ok t ∧ ∀ k, ∃ v, t !! k = Some v ∧ 0 ≤ v).
  { intros g p Hg Hp. apply count_path_wf; [|done].
    eapply Forall_forall in Hwf; [exact Hwf|done]. }
  destruct (build_results_Ok goals (product [0; 1] 7) ∅) as [results Hres].
  { intros p Hp. apply path_counts_Ok. intros g Hg.
    destruct (Hcp g p Hg Hp) as (t & Ht & _). by exists t. }
  exists results. split; [done|]. intros g prio p Hg Hp.
  destruct (build_results_inv _ _ _ _ Hres p) as [[_ (d & Hd & Hrp)]|[Hno _]]; [|done].
  destruct (path_counts_inv _ _ _ _ Hd (name (cls g)))
    as [[_ Hno]|(g' & t & Hg' & Hname & Ht & Hdn)]; [by destruct (Hno g Hg)|].
  destruct (Hcp g' p Hg' Hp) as (t' & Ht' & Htk).
  assert (t' = t) as -> by congruence.
  destruct (Htk prio) as (v & Hv & Hv0).
  exists g', t, v. repeat split; try done.
  unfold stat_of, getitem. rewrite Hrp. simpl. rewrite Hdn. simpl. by rewrite Hv.
Qed.

(** A round over paths whose values can be read and are not negative
    keeps exactly the paths of the largest value. *)
Lemma select_maxima val f paths :
  (∀ p, p ∈ paths → val p = Ok (f p) ∧ 0 ≤ f p) →
  ∃ S, select val paths [] 0 = Ok S
       ∧ S `sublist_of` paths
       ∧ (paths ≠ [] → S ≠ [])
       ∧ ∀ p, p ∈ S ↔ p ∈ paths ∧ ∀ q, q ∈ paths → f q ≤ f p.
Proof.
  intros Hval. eexists. split.
  { rewrite (select_spec val f); [|intros p Hp; by apply Hval].
    replace (if decide (0 < max_from f 0 paths) then [] else [])
      with (@nil (list Z)) by (by case_decide). reflexivity. }
  assert (Hmax : ∀ p, p ∈ paths →
            (f p = max_from f 0 paths ↔ ∀ q, q ∈ paths → f q ≤ f p)).
  { intros p Hp. split.
    - intros -> q Hq. by apply max_from_ge.
    - intros Hq. pose proof (max_from_ge f paths 0 p Hp).
      destruct (max_from_attained f paths 0) as [H0|(q & Hq' & Hfq)].
      + destruct (Hval p Hp) as [_ ?]. lia.
      + specialize (Hq q Hq'). lia. }
  simpl. split; [apply sublist_filter|]. split.
  - intros Hne Hnil.
    assert (∃ p, p ∈ paths ∧ f p = max_from f 0 paths) as (p & Hp & Hfp).
    { destruct (max_from_attained f paths 0) as [H0|?]; [|done].
      destruct paths as [|q paths']; [done|]. exists q.
      assert (Hq : q ∈ q :: paths') by apply list_elem_of_here. split; [done|].
      destruct (Hval q Hq) as [_ ?]. pose proof (max_from_ge f _ 0 q Hq). lia. }
    assert (Hin : p ∈ filter (λ p, f p = max_from f 0 paths) paths).
    { by apply list_elem_of_filter. }
    rewrite Hnil in Hin. by apply elem_of_nil in Hin.
  - intros p. rewrite list_elem_of_filter. split.
    + intros [Hfp Hp]. split; [done|]. by apply Hmax.
    + intros [Hp Hq]. split; [|done]. by apply Hmax.
Qed.

Section Rounds.

(** A dict of results from which every stat of every candidate path can be
    read, for every goal, and is not negative. *)
Variable results : gmap (list Z) (gmap string TalentCounter).
Variable goals : list Goal.
Variable candidates : list (list Z).
Hypothesis readable : ∀ g prio p, g ∈ goals → p ∈ candidates →
  ∃ v, stat_of results (name (cls g)) prio p = Ok v ∧ 0 ≤ v.

Lemma goal_round_nonempty idx g T :
  g ∈ goals → T ≠ [] → T `sublist_of` candidates →
  ∃ T', goal_round results idx g T = Ok T' ∧ T' ≠ [] ∧ T' `sublist_of` T.
Proof.
  intros Hg Hne Hsub. unfold goal_round.
  destruct (priorities g !! idx) as [prio|]; [|by exists T].
  destruct (select_maxima (stat_of results (name (cls g)) prio)
              (value_of (stat_of results (name (cls g)) prio)) T)
    as (T' & HT' & Hsub' & Hne' & _).
  { intros p Hp. destruct (readable g prio p Hg) as (v & Hv & Hv0).
    - by eapply elem_of_sublist.
    - unfold value_of. by rewrite Hv. }
  exists T'. split; [done|]. split; [by apply Hne'|done].
Qed.

Lemma goals_round_nonempty idx gs : ∀ T,
  (∀ g, g ∈ gs → g ∈ goals) → T ≠ [] → T `sublist_of` candidates →
  ∃ T', goals_round results idx gs T = Ok T' ∧ T' ≠ [] ∧ T' `sublist_of` T.
Proof.
  induction gs as [|g gs IH]; intros T Hgs Hne Hsub; simpl; [by exists T|].
  destruct (goal_round_nonempty idx g T) as (T1 & -> & Hne1 & Hsub1);
    [apply Hgs, list_elem_of_here|done..|].
  simpl. destruct (IH T1) as (T' & HT' & Hne' & Hsub'); [|done|by etrans|].
  { intros g' Hg'. by apply Hgs, list_elem_of_further. }
  exists T'. split; [done|]. split; [done|by etrans].
Qed.

Lemma rounds_nonempty idxs : ∀ T,
  T ≠ [] → T `sublist_of` candidates →
  ∃ T', rounds results goals idxs T = Ok T' ∧ T' ≠ [] ∧ T' `sublist_of` T.
Proof.
  induction idxs as [|idx idxs IH]; intros T Hne Hsub; simpl; [by exists T|].
  destruct (goals_round_nonempty idx goals T) as (T1 & -> & Hne1 & Hsub1); [done..|].
  simpl. destruct (IH T1) as (T' & HT' & Hne' & Hsub'); [done|by etrans|].
  exists T'. split; [done|]. split; [done|by etrans].
Qed.

End Rounds.

Lemma product_nonempty n : product [0; 1] n ≠ [].
Proof.
  intros Hnil.
  assert (Hin : replicate n 0 ∈ product [0; 1] n).
  { apply product_binary. split; [apply length_replicate|].
    apply Forall_replicate. by left. }
  rewrite Hnil in Hin. by apply elem_of_nil in Hin.
Qed.

(** For well-formed goals the evaluator returns, and returns a path. *)
Lemma best_paths_of_wf (goals : list Goal) :
  goals ≠ [] →
  Forall (λ g, wf_class (cls g)) goals →
  ∃ S, best_paths_of goals = Ok S ∧ S ≠ [].
Proof.
  intros Hne Hwf. destruct (results_wf goals Hwf) as (results & Hres & Hread).
  assert (readable : ∀ g prio p, g ∈ goals → p ∈ product [0; 1] 7 →
            ∃ v, stat_of results (name (cls g)) prio p = Ok v ∧ 0 ≤ v).
  { intros g prio p Hg Hp.
    destruct (Hread g prio p Hg Hp) as (g' & t & v & _ & _ & _ & _ & Hv0 & Hv).
    by exists v. }
  unfold best_paths_of. rewrite (evaluate_results _ _ _ Hres). unfold eliminate.
  destruct goals as [|g goals]; [done|]. simpl.
  destruct (rounds_nonempty results (g :: goals) (product [0; 1] 7) readable
              (seq 0 (foldl Nat.max (length (priorities g))
                        ((λ g, length (priorities g)) <$> goals)))
              (product [0; 1] 7))
    as (S & HS & HSne & _); [apply product_nonempty|done|].
  by exists S.
Qed.

(** The evaluator is idempotent on well-formed goals, where it returns. *)
Corollary evaluate_idempotent_wf (goals : list Goal) :
  goals ≠ [] →
  Forall (λ g, wf_class (cls g)) goals →
  ∃ S, best_paths_of goals = Ok S ∧ evaluate goals S = Ok S.
Proof.
  intros Hne Hwf. destruct (best_paths_of_wf goals Hne Hwf) as (S & HS & _).
  exists S. split; [done|]. by apply evaluate_idempotent.
Qed.

(** C10. For a non-empty list of goals over well-formed classes of seven
    branches, the results are computed without an exception; every
    elimination round (a goal at a priority index) maps a non-empty list
    of surviving candidates to a non-empty sublist of it; and the
    evaluator returns at least one path. *)
Theorem evaluator_returns_a_path (goals : list Goal) :
  goals ≠ [] →
  Forall (λ g, wf_class (cls g)) goals →
  ∃ results,
    build_results goals (product [0; 1] 7) ∅ = Ok results
    ∧ (∀ idx g T, g ∈ goals → T ≠ [] → T `sublist_of` product [0; 1] 7 →
         ∃ T', goal_round results idx g T = Ok T' ∧ T' ≠ [] ∧ T' `sublist_of` T)
    ∧ ∃ S, best_paths_of goals = Ok S ∧ S ≠ [].
Proof.
  intros Hne Hwf. destruct (results_wf goals Hwf) as (results & Hres & Hread).
  assert (readable : ∀ g prio p, g ∈ goals → p ∈ product [0; 1] 7 →
            ∃ v, stat_of results (name (cls g)) prio p = Ok v ∧ 0 ≤ v).
  { intros g prio p Hg Hp.
    destruct (Hread g prio p Hg Hp) as (g' & t & v & _ & _ & _ & _ & Hv0 & Hv).
    by exists v. }
  exists results. split; [done|]. split.
  - intros idx g T. by eapply goal_round_nonempty.
  - by apply best_paths_of_wf.
Qed.

(** A class read by [from_xml] with seven splits of at least two branches
    is well formed. *)
Lemma from_xml_wf (xml : element) (e : ClassTalents) :
  from_xml xml = Ok e →
  length (branches e) = 7%nat →
  Forall (λ split, (2 ≤ length split)%nat) (branches e) →
  wf_class e.
Proof.
  intros Hxml Hlen Htwo. destruct (from_xml_ok xml e Hxml) as (_ & [_ Hcount] & Hbr).
  split; [done|]. split; [done|].
  apply Forall_forall. intros split Hsplit. split.
  - eapply Forall_forall in Htwo; [exact Htwo|done].
  - eapply Forall_forall in Hbr; [|exact Hsplit].
    eapply Forall_impl; [exact Hbr|]. by intros t [_ ?].
Qed.

Lemma tally_of_nonneg a d : 0 ≤ a → 0 ≤ d → nonneg (tally_of a d).
Proof.
  intros Ha Hd k v. unfold tally_of. rewrite !lookup_insert.
  repeat case_decide; [intros [= <-]; lia..|].
  rewrite TalentCounter_init_lookup. intros [= <-]. lia.
Qed.

Lemma seven_branches_wf : wf_class seven_branches.
Proof.
  split; [reflexivity|]. split; [apply tally_of_nonneg; lia|].
  unfold seven_branches, branches.
  repeat (constructor;
    [split; [simpl; lia|];
     repeat (constructor; [apply tally_of_nonneg; lia|]); constructor|]).
  constructor.
Qed.

(** A witness of C10: two goals over the class [seven_branches]. *)
Lemma evaluator_returns_a_path_witness :
  ∃ results,
    build_results [{| cls := seven_branches; priorities := [ATTACK] |};
                   {| cls := seven_branches; priorities := [MANA; DEFENSE] |}]
      (product [0; 1] 7) ∅ = Ok results
    ∧ (∀ idx g T,
         g ∈ [{| cls := seven_branches; priorities := [ATTACK] |};
              {| cls := seven_branches; priorities := [MANA; DEFENSE] |}] →
         T ≠ [] → T `sublist_of` product [0; 1] 7 →
         ∃ T', goal_round results idx g T = Ok T' ∧ T' ≠ [] ∧ T' `sublist_of` T)
    ∧ ∃ S, best_paths_of [{| cls := seven_branches; priorities := [ATTACK] |};
                          {| cls := seven_branches; priorities := [MANA; DEFENSE] |}]
             = Ok S ∧ S ≠ [].
Proof.
  apply evaluator_returns_a_path; [done|].
  constructor; [exact seven_branches_wf|].
  constructor; [exact seven_branches_wf|constructor].
Defined.

Lemma eliminate_single results e prio paths :
  eliminate results [{| cls := e; priorities := [prio] |}] paths
  = select (stat_of results (name e) prio) paths [] 0.
Proof.
  unfold eliminate. simpl. unfold goal_round. simpl.
  by destruct (select (stat_of results (name e) prio) paths [] 0).
Qed.

(** C1. For a single goal with the one priority [prio] over a well-formed
    class of seven branches, the evaluator returns a path set [S], and a
    path is in [S] exactly when it is a binary path of length 7 whose
    resolved tally has a count of [prio] that no binary path of length 7
    exceeds. *)
Theorem single_priority_selects_maxima (e : ClassTalents) (prio : Step) :
  wf_class e →
  ∃ S, best_paths_of [{| cls := e; priorities := [prio] |}] = Ok S ∧
    ∀ p, p ∈ S ↔
      length p = 7%nat ∧ binary p ∧
      ∃ t v, count_path e p = Ok t ∧ t !! prio = Some v ∧
        ∀ q t' v', length q = 7%nat → binary q →
          count_path e q = Ok t' → t' !! prio = Some v' → v' ≤ v.
Proof.
  intros Hwf. set (g := {| cls := e; priorities := [prio] |}).
  destruct (results_wf [g]) as (results & Hres & Hread).
  { constructor; [exact Hwf|constructor]. }
  set (val := stat_of results (name e) prio).
  assert (Hval : ∀ p, p ∈ product [0; 1] 7 →
            ∃ t v, count_path e p = Ok t ∧ t !! prio = Some v ∧ 0 ≤ v
                   ∧ val p = Ok v ∧ value_of val p = v).
  { intros p Hp.
    destruct (Hread g prio p) as (g' & t & v & Hg' & _ & Ht & Hv & Hv0 & Hs);
      [apply list_elem_of_here|done|].
    apply list_elem_of_singleton in Hg' as ->.
    exists t, v. repeat split; try done. unfold value_of, val. simpl in Hs.
    by rewrite Hs. }
  destruct (select_maxima val (value_of val) (product [0; 1] 7))
    as (S & HS & _ & _ & Hmem).
  { intros p Hp. destruct (Hval p Hp) as (t & v & _ & _ & Hv0 & Hv & Hf).
    rewrite Hf. by split. }
  exists S. split.
  { unfold best_paths_of. rewrite (evaluate_results _ _ _ Hres).
    unfold g. by rewrite eliminate_single. }
  intros p. rewrite Hmem, product_binary. split.
  - intros [[Hlen Hbin] Hmax]. split; [done|]. split; [done|].
    destruct (Hval p) as (t & v & Ht & Hv & _ & _ & Hf); [by apply product_binary|].
    exists t, v. split; [done|]. split; [done|].
    intros q t' v' Hqlen Hqbin Ht' Hv'.
    assert (Hq : q ∈ product [0; 1] 7) by by apply product_binary.
    destruct (Hval q Hq) as (t0 & v0 & Ht0 & Hv0 & _ & _ & Hf0).
    specialize (Hmax q). rewrite product_binary in Hmax.
    assert (t0 = t') as -> by congruence. assert (v0 = v') as -> by congruence.
    rewrite Hf, Hf0 in Hmax. by apply Hmax.
  - intros (Hlen & Hbin & t & v & Ht & Hv & Hmax). split; [done|].
    intros q Hq. pose proof Hq as Hq'. apply product_binary in Hq' as [Hqlen Hqbin].
    destruct (Hval q Hq) as (t' & v' & Ht' & Hv' & _ & _ & ->).
    destruct (Hval p) as (t0 & v0 & Ht0 & Hv0 & _ & _ & ->); [by apply product_binary|].
    assert (t0 = t) as -> by congruence. assert (v0 = v) as -> by congruence.
    by eapply Hmax.
Qed.

(** A witness of C1: the class [seven_branches], ranked by attack. *)
Lemma single_priority_selects_maxima_witness :
  ∃ S, best_paths_of [{| cls := seven_branches; priorities := [ATTACK] |}] = Ok S ∧
    ∀ p, p ∈ S ↔
      length p = 7%nat ∧ binary p ∧
      ∃ t v, count_path seven_branches p = Ok t ∧ t !! ATTACK = Some v ∧
        ∀ q t' v', length q = 7%nat → binary q →
          count_path seven_branches q = Ok t' → t' !! ATTACK = Some v' → v' ≤ v.
Proof.
  apply single_priority_selects_maxima. exact seven_branches_wf.
Defined.

(** A base of one attack and one branch of alternatives of two attacks
    and of none: over the paths of length 1, the path (0) is selected, and
    it counts three attacks. *)
Example one_branch_scenario :
  let e := {| name := "monk"; count := tally_of 1 0;
              branches := [[tally_of 2 0; tally_of 0 0]] |} in
  evaluate [{| cls := e; priorities := [ATTACK] |}] (product [0; 1] 1) = Ok [[0]]
  ∧ (t ← count_path e [0]; getitem t ATTACK) = Ok 3.
Proof. split; vm_compute; reflexivity. Qed.

(** The paths of the witness, computed. *)
Example best_attack_paths :
  best_paths_of [{| cls := seven_branches; priorities := [ATTACK] |}]
  = Ok [[0; 1; 0; 0; 0; 0; 0]; [0; 1; 0; 1; 0; 0; 0];
        [0; 1; 1; 0; 0; 0; 0]; [0; 1; 1; 1; 0; 0; 0]].
Proof. vm_compute. reflexivity. Qed.

(** ** Errors of the evaluator *)

Lemma parse_chars_bad chars c :
  c ∈ chars → step_map c = None → parse_chars chars = Raise KeyError.
Proof.
  induction chars as [|c' chars IH]; intros Hc Hbad; [by apply elem_of_nil in Hc|].
  simpl. apply elem_of_cons in Hc as [<-|Hc].
  - by rewrite Hbad.
  - destruct (step_map c'); [|done]. by rewrite IH.
Qed.

Lemma parse_chars_raises chars e : parse_chars chars = Raise e → e = KeyError.
Proof.
  induction chars as [|c chars IH]; simpl; [done|].
  destruct (step_map c); [|by intros [= <-]].
  destruct (parse_chars chars); simpl; [done|]. intros [= <-]. by apply IH.
Qed.

Lemma build_goals_raises classes pairs e :
  build_goals classes pairs = Raise e → e = KeyError.
Proof.
  induction pairs as [|[n p] pairs IH]; simpl; [done|].
  unfold getitem. destruct (classes !! n); simpl; [|by intros [= <-]].
  unfold parse_priorities.
  destruct (parse_chars (String.list_ascii_of_string p)) eqn:Hp; simpl.
  - destruct (build_goals classes pairs); simpl; [done|]. intros [= <-]. by apply IH.
  - intros [= <-]. by eapply parse_chars_raises.
Qed.

Lemma build_goals_bad classes pairs n p :
  (n, p) ∈ pairs →
  classes !! n = None
    ∨ (∃ c, c ∈ String.list_ascii_of_string p ∧ step_map c = None) →
  build_goals classes pairs = Raise KeyError.
Proof.
  intros Hin Hbad.
  destruct (build_goals classes pairs) as [goals|e] eqn:Hb.
  - exfalso. revert goals Hb.
    induction pairs as [|[n' p'] pairs IH]; intros goals Hb;
      [by apply elem_of_nil in Hin|].
    simpl in Hb. inv_bind Hb. inv_bind Hb. inv_bind Hb.
    apply elem_of_cons in Hin as [[= <- <-]|Hin].
    + destruct Hbad as [Hn|(c & Hc & Hs)].
      * unfold getitem in Ha. by rewrite Hn in Ha.
      * unfold parse_priorities in Ha0. by rewrite (parse_chars_bad _ _ Hc Hs) in Ha0.
    + by eapply IH.
  - f_equal. by eapply build_goals_raises.
Qed.

(** C8, as the code has it. When the priority string of a goal contains
    a character that is not a key of [step_map], or a goal names a class
    that is not among the loaded classes, [main] raises [KeyError]. *)
Theorem unknown_code_or_class_raises_KeyError
    (classes : gmap string ClassTalents) (goal : list string) (n p : string) :
  (n, p) ∈ zip (islice_even goal) (islice_odd goal) →
  classes !! n = None
    ∨ (∃ c, c ∈ String.list_ascii_of_string p ∧ step_map c = None) →
  main classes goal = Raise KeyError.
Proof.
  intros Hin Hbad. unfold main. by rewrite (build_goals_bad _ _ _ _ Hin Hbad).
Qed.

(** A witness of C8 as amended: the priority string "ax". *)
Lemma unknown_code_or_class_raises_KeyError_witness :
  main {["wizard" := seven_branches]} ["wizard"; "ax"] = Raise KeyError.
Proof.
  apply (unknown_code_or_class_raises_KeyError _ _ "wizard" "ax").
  - apply list_elem_of_here.
  - right. exists "x"%char. split; [|reflexivity].
    apply list_elem_of_further, list_elem_of_here.
Defined.

(** C8 as stated fails: the exception raised for an unknown priority code
    is not of a class [InvalidPriorityError], and the exception raised for
    an unknown class is not of a class [UnknownEntityError]. *)
Lemma error_class_counterexample :
  step_map "x"%char = None
  ∧ ({["wizard" := seven_branches]} : gmap string ClassTalents) !! "ranger" = None
  ∧ ¬ (∃ e, main {["wizard" := seven_branches]} ["wizard"; "ax"] = Raise e
            ∧ exn_name e = "InvalidPriorityError")
  ∧ ¬ (∃ e, main {["wizard" := seven_branches]} ["ranger"; "a"] = Raise e
            ∧ exn_name e = "UnknownEntityError").
Proof.
  split; [reflexivity|]. split; [reflexivity|]. split.
  - intros (e & He & Hname). vm_compute in He. injection He as <-. discriminate Hname.
  - intros (e & He & Hname). vm_compute in He. injection He as <-. discriminate Hname.
Qed.

End TalentsProofs.

(** ** The leveling simulator *)

Module TrainingProofs.
Import Training TrainingSpec.

(** [ceil_div a b] is the ceiling of the quotient, for a positive [b]. *)
Lemma ceil_div_spec (a b : Z) :
  0 < b → ∃ q, ceil_div a b = Ok q ∧ (q - 1) * b < a ≤ q * b.
Proof.
  intros Hb. unfold ceil_div.
  destruct (Z.eqb_spec b 0) as [->|_]; [lia|].
  eexists. split; [reflexivity|].
  pose proof (Z.div_mod (- a) b ltac:(lia)) as Hdm.
  pose proof (Z.mod_pos_bound (- a) b Hb) as Hmod.
  nia.
Qed.

Lemma ceil_unique (a b q q' : Z) :
  0 < b → (q - 1) * b < a ≤ q * b → (q' - 1) * b < a ≤ q' * b → q = q'.
Proof. intros Hb H H'. nia. Qed.





(** The step of the witness, computed: a batch of 6, a threshold of 12. *)
Example body_1000 :
  do_steps_of 10 {| xp := 180; chance := 2 |} 1000 = Ok 6
  ∧ body 10 {| xp := 180; chance := 2 |} 1000 [2000] 1 11 = Ok (Next [2000] 2)
  ∧ body 10 {| xp := 180; chance := 2 |} 1000 [2000] 1 12 = Ok (Next [2000] 1)
  ∧ body 4 {| xp := 180; chance := 2 |} 1000 [2000] 1 7 = Ok (Next [280; 2000] 2).
Proof. repeat split; reflexivity. Qed.

(** ** Termination of a run *)

(** An iteration ends the run, or removes the head requirement, or makes
    it smaller and leaves it positive. *)
Lemma body_progress (steps : Z) (step : Step) (asc0 : Z) (rest : list Z)
    (level draw : Z) :
  0 < xp step → 1 ≤ steps →
  ∃ ctl, body steps step asc0 rest level draw = Ok ctl
         ∧ (ctl = Break
            ∨ (∃ level', ctl = Next rest level')
            ∨ (∃ asc0' level', ctl = Next (asc0' :: rest) level' ∧ 0 < asc0' < asc0)).
Proof.
  intros Hxp Hsteps. destruct (ceil_div_spec asc0 (xp step) Hxp) as (q & Hq & Hceil).
  unfold body, do_steps_of. rewrite Hq. simpl.
  destruct (_ =? 8); [eexists; split; [done|by left]|].
  destruct (Z.leb_spec (asc0 - Z.min steps q * xp step) 0) as [Hle|Hgt].
  - eexists. split; [done|]. right. left. by eexists.
  - eexists. split; [done|]. right. right. do 2 eexists. split; [done|]. nia.
Qed.

Section Termination.

Variable draws : nat → Z.
Variables (steps : Z) (step : Step).
Hypothesis xp_positive : 0 < xp step.
Hypothesis steps_positive : 1 ≤ steps.

Lemma while_asc_terminates (fuel : nat) : ∀ asc level rng,
  (iterations asc ≤ fuel)%nat →
  ∃ success rng', while_asc draws fuel steps step asc level rng = Some (Ok (success, rng')).
Proof.
  induction fuel as [|fuel IH]; intros [|asc0 rest] level rng Hfuel;
    simpl in Hfuel; try lia; simpl; [by do 2 eexists..|].
  destruct (body_progress steps step asc0 rest level (draws rng) xp_positive
              steps_positive)
    as (ctl & -> & [->|[[level' ->]|(asc0' & level' & -> & Hlt)]]).
  - by do 2 eexists.
  - apply IH. lia.
  - apply IH. simpl. lia.
Qed.

Lemma runs_loop_terminates (fuel : nat) (ascensions : list Z) (runs : nat) :
  (iterations ascensions ≤ fuel)%nat →
  ∀ successes rng,
    ∃ successes' rng',
      runs_loop draws fuel ascensions steps step runs successes rng
      = Some (Ok (successes', rng')).
Proof.
  intros Hfuel. induction runs as [|runs IH]; intros successes rng; simpl.
  - by do 2 eexists.
  - destruct (while_asc_terminates fuel ascensions 1 rng Hfuel) as (b & rng' & ->).
    apply IH.
Qed.

End Termination.

Lemma compute_terminates (draws : nat → Z) (steps : Z) (step : Step)
    (fuel : nat) (ascensions : list Z) (num_runs : Z) (rng : nat) :
  0 < xp step → 1 ≤ steps → (iterations ascensions ≤ fuel)%nat →
  ∃ successes rng',
    runs_loop draws fuel ascensions steps step (Z.to_nat num_runs) 0 rng
    = Some (Ok (successes, rng'))
    ∧ compute draws fuel ascensions steps num_runs step rng
      = Some (if num_runs =? 0 then Raise ZeroDivisionError
              else Ok (successes, rng')).
Proof.
  intros Hxp Hsteps Hfuel.
  destruct (runs_loop_terminates draws steps step Hxp Hsteps fuel ascensions
              (Z.to_nat num_runs) Hfuel 0 rng) as (successes & rng' & Hruns).
  exists successes, rng'. split; [done|]. unfold compute. rewrite Hruns.
  by destruct (num_runs =? 0).
Qed.

(** [main] returns, with the fuel of [iterations] for each run: the
    resources of the table have a positive XP value. *)
Lemma main_terminates (draws : nat → Z) (fuel : nat) (tiers : gmap Z (list Z))
    (goal source num_runs : Z) (ascensions : list Z) :
  tiers !! goal = Some ascensions → (iterations ascensions ≤ fuel)%nat →
  ∃ r, main draws fuel tiers goal source num_runs = Some r.
Proof.
  intros Htier Hfuel. unfold main, steps_table, getitem. rewrite Htier.
  assert (Hstep : ∀ step, 0 < xp step →
    ∃ r, match compute draws fuel ascensions 1 num_runs step 0 with
         | Some (Ok (successes1, rng1)) =>
             match compute draws fuel ascensions 10 num_runs step rng1 with
             | Some (Ok (successes10, _)) => Some (Ok (successes1, successes10))
             | Some (Raise e) => Some (Raise e)
             | None => None
             end
         | Some (Raise e) => Some (Raise e)
         | None => None
         end = Some r).
  { intros step Hxp.
    destruct (compute_terminates draws 1 step fuel ascensions num_runs 0 Hxp
                ltac:(lia) Hfuel) as (s1 & rng1 & _ & ->).
    destruct (num_runs =? 0); [by eexists|].
    destruct (compute_terminates draws 10 step fuel ascensions num_runs rng1 Hxp
                ltac:(lia) Hfuel) as (s10 & rng2 & _ & ->).
    destruct (num_runs =? 0); by eexists. }
  destruct (source =? 1); [apply Hstep; simpl; lia|].
  destruct (source =? 2); [apply Hstep; simpl; lia|]. by eexists.
Qed.



(** ** Runs at a success chance of 100 *)



Section FullChance.

Variable draws : nat → Z.
Variables (steps : Z) (step : Step).
Hypothesis draws_range : ∀ i, 0 ≤ draws i < 100.
Hypothesis xp_positive : 0 < xp step.
Hypothesis chance_full : chance step = 100.





End FullChance.




End TrainingProofs.

(** * Further properties of the evaluator *)

Module TalentsMore.
Import Talents TalentsSpec TalentsSpecMore TalentsProofs.

(** ** [Step.from_text] *)

Lemma from_text_value s : from_text (Step_value s) = Ok s.
Proof. by destruct s. Qed.

Lemma from_text_Ok text s : from_text text = Ok s ↔ Step_value s = text.
Proof.
  split; [|intros <-; apply from_text_value].
  unfold from_text.
  destruct (filter (λ v, Step_value v = text) Step_members) as [|v l] eqn:E; [done|].
  intros [= <-].
  assert (Hv : v ∈ filter (λ v, Step_value v = text) Step_members)
    by (rewrite E; apply list_elem_of_here).
  by apply list_elem_of_filter in Hv as [Hv _].
Qed.

Lemma from_text_Raise text e :
  from_text text = Raise e → e = ValueError ∧ ∀ s, Step_value s ≠ text.
Proof.
  intros H. split.
  - unfold from_text in H. destruct (filter _ _); [|done]. by injection H as <-.
  - intros s <-. by rewrite from_text_value in H.
Qed.

Lemma from_text_no_member text :
  (∀ s, Step_value s ≠ text) → from_text text = Raise ValueError.
Proof.
  intros Hno. destruct (from_text text) as [s|e] eqn:E.
  - apply from_text_Ok in E. by destruct (Hno s).
  - by apply from_text_Raise in E as [-> _].
Qed.

Lemma Step_value_inj s k : Step_value s = Step_value k → s = k.
Proof. intros H. pose proof (from_text_value s) as Hs. rewrite H, from_text_value in Hs. congruence. Qed.

(** X1. [from_text] inverts [value]: it returns the member of a value, a
    text is read as [s] exactly when it is the value of [s], and a text
    that is the value of no member raises [ValueError]. *)
Theorem from_text_inverts_value :
  (∀ s, from_text (Step_value s) = Ok s)
  ∧ (∀ text s, from_text text = Ok s ↔ Step_value s = text)
  ∧ (∀ text, (∀ s, Step_value s ≠ text) ↔ from_text text = Raise ValueError).
Proof.
  split; [apply from_text_value|]. split; [apply from_text_Ok|].
  intros text. split; [apply from_text_no_member|].
  intros H. by apply from_text_Raise in H as [_ ?].
Qed.

(** ** [TalentCounter.add] *)

Lemma add_items_dom items : ∀ self t,
  add_items self items = Ok t → dom t = dom self.
Proof.
  induction items as [|[k v] items IH]; intros self t H; simpl in H.
  - by injection H as <-.
  - inv_bind H. unfold iadd, getitem in Ha.
    destruct (self !! k) as [c|] eqn:Hk; [|done]. injection Ha as <-.
    rewrite (IH _ _ H), dom_insert_L.
    apply elem_of_dom_2 in Hk. apply set_eq. intros k'.
    rewrite elem_of_union, elem_of_singleton. split; [|by right].
    by intros [->|?].
Qed.

Lemma add_items_missing items : ∀ self k,
  k ∈ items.*1 → self !! k = None → add_items self items = Raise KeyError.
Proof.
  induction items as [|[k' v] items IH]; intros self k Hk Hnone;
    [by apply elem_of_nil in Hk|].
  simpl. rewrite fmap_cons in Hk. simpl in Hk.
  destruct (self !! k') as [c|] eqn:Hk'.
  - rewrite (iadd_Ok _ _ _ _ Hk'). simpl.
    apply elem_of_cons in Hk as [->|Hk]; [congruence|].
    apply (IH _ k Hk). rewrite lookup_insert_ne; [done|congruence].
  - by rewrite iadd_missing.
Qed.

(** X2. [self.add(rhs)], for any two dicts over the kinds: when every key
    of [rhs] is a key of [self], the merge succeeds, keeps the keys of
    [self], and adds to each count the count of [rhs]; when a key of [rhs]
    is missing in [self], it raises [KeyError]. It never adds a key. *)
Theorem add_counter_outcome (self rhs : TalentCounter) :
  (dom rhs ⊆ dom self →
     ∃ t, add self (OfCounter rhs) = Ok t ∧ dom t = dom self
          ∧ ∀ k, t !! k = (λ c, c + stat rhs k) <$> self !! k)
  ∧ (¬ dom rhs ⊆ dom self → add self (OfCounter rhs) = Raise KeyError).
Proof.
  split.
  - intros Hsub. destruct (add_counter_spec self rhs) as (t & Ht & Hlook).
    { intros k Hk. apply elem_of_dom. apply Hsub. by apply elem_of_dom. }
    exists t. split; [done|]. split; [|done]. by eapply add_items_dom.
  - intros Hnot.
    assert (∃ k, k ∈ dom rhs ∧ k ∉ dom self) as (k & Hk & Hno).
    { destruct (decide (set_Forall (λ k, k ∈ dom self) (dom rhs))) as [Hall|Hex].
      - destruct Hnot. intros k Hk. by apply Hall.
      - apply not_set_Forall_Exists in Hex; [|apply _].
        destruct Hex as (k & Hk & Hno). by exists k. }
    simpl. apply elem_of_dom in Hk as [v Hv].
    apply (add_items_missing _ _ k).
    + apply list_elem_of_fmap. exists (k, v). split; [done|].
      by apply elem_of_map_to_list.
    + by apply not_elem_of_dom.
Qed.

(** X3. The fresh counter is the identity of the merge: merging a tally
    into a fresh counter (the copy that [count_path] starts from) gives
    that tally, and merging a fresh counter into a tally leaves it as it
    is. *)
Theorem add_fresh_identity (t : TalentCounter) :
  tally t →
  add TalentCounter_init (OfCounter t) = Ok t
  ∧ add t (OfCounter TalentCounter_init) = Ok t.
Proof.
  intros Ht. split.
  - destruct (add_counter_spec TalentCounter_init t) as (r & Hr & Hlook).
    { intros k _. apply TalentCounter_init_tally. }
    rewrite Hr. f_equal. apply map_eq. intros k.
    rewrite Hlook, TalentCounter_init_lookup. unfold stat.
    by destruct (Ht k) as [v ->].
  - destruct (add_counter_spec t TalentCounter_init) as (r & Hr & Hlook).
    { intros k _. apply Ht. }
    rewrite Hr. f_equal. apply map_eq. intros k.
    rewrite Hlook. unfold stat. rewrite TalentCounter_init_lookup.
    destruct (Ht k) as [v ->]. simpl. f_equal. lia.
Qed.

Lemma add_fresh_identity_witness :
  add TalentCounter_init (OfCounter (tally_of 2 3)) = Ok (tally_of 2 3)
  ∧ add (tally_of 2 3) (OfCounter TalentCounter_init) = Ok (tally_of 2 3).
Proof.
  apply add_fresh_identity. intros k. unfold tally_of. rewrite !lookup_insert.
  repeat case_decide; try by eexists. apply TalentCounter_init_tally.
Defined.

(** X4. The merge is associative: merging [t2] and then [t3] into [t1]
    gives the tally that merging into [t1] the merge of [t3] into [t2]
    gives. *)
Theorem add_associative (t1 t2 t3 : TalentCounter) :
  tally t1 → tally t2 →
  ∃ t12 t23 t,
    add t1 (OfCounter t2) = Ok t12 ∧ add t12 (OfCounter t3) = Ok t
    ∧ add t2 (OfCounter t3) = Ok t23 ∧ add t1 (OfCounter t23) = Ok t.
Proof.
  intros H1 H2.
  destruct (add_tally_spec t1 t2 H1) as (t12 & H12 & Ht12 & Hs12).
  destruct (add_tally_spec t12 t3 Ht12) as (t & Ht & Htt & Hs).
  destruct (add_tally_spec t2 t3 H2) as (t23 & H23 & Ht23 & Hs23).
  destruct (add_tally_spec t1 t23 H1) as (t' & Ht' & Htt' & Hs').
  exists t12, t23, t. repeat split; try done.
  rewrite Ht'. f_equal. apply map_eq. intros k.
  specialize (Hs k). specialize (Hs' k). rewrite Hs12 in Hs. rewrite Hs23 in Hs'.
  unfold stat at 1 in Hs. unfold stat at 1 in Hs'.
  destruct (Htt k) as [v Hv], (Htt' k) as [v' Hv'].
  rewrite Hv in Hs. rewrite Hv' in Hs'. rewrite Hv, Hv'. simpl in *. f_equal. lia.
Qed.

Lemma add_associative_witness :
  ∃ t12 t23 t,
    add (tally_of 1 0) (OfCounter (tally_of 0 2)) = Ok t12
    ∧ add t12 (OfCounter (tally_of 3 3)) = Ok t
    ∧ add (tally_of 0 2) (OfCounter (tally_of 3 3)) = Ok t23
    ∧ add (tally_of 1 0) (OfCounter t23) = Ok t.
Proof.
  apply add_associative; intros k; unfold tally_of; rewrite !lookup_insert;
    repeat case_decide; try (by eexists); apply TalentCounter_init_tally.
Defined.

(** X5. Adding a single kind [s] to a tally is the merge of the counter
    that counts one [s]: the count of [s] goes up by one and every other
    count stays. *)
Theorem add_step_is_unit_merge (t : TalentCounter) (s : Step) :
  tally t →
  ∃ r, add t (OfStep s) = Ok r
       ∧ add t (OfCounter (unit_counter s)) = Ok r
       ∧ (∀ c, t !! s = Some c → r !! s = Some (c + 1))
       ∧ (∀ k, k ≠ s → r !! k = t !! k).
Proof.
  intros Ht. destruct (Ht s) as [c Hc]. simpl add at 1.
  rewrite (iadd_Ok _ _ _ _ Hc). eexists. split; [done|]. split; [|split].
  - destruct (add_counter_spec t (unit_counter s)) as (r & Hr & Hlook).
    { intros k _. apply Ht. }
    rewrite Hr. f_equal. apply map_eq. intros k. rewrite Hlook.
    unfold stat, unit_counter. destruct (decide (s = k)) as [->|Hne].
    + rewrite !lookup_insert_eq. by rewrite Hc.
    + rewrite !lookup_insert_ne by done. rewrite TalentCounter_init_lookup.
      destruct (Ht k) as [v ->]. simpl. f_equal. lia.
  - intros c' Hc'. rewrite lookup_insert_eq. congruence.
  - intros k Hk. by rewrite lookup_insert_ne.
Qed.

Lemma add_step_is_unit_merge_witness :
  ∃ r, add TalentCounter_init (OfStep MANA) = Ok r
       ∧ add TalentCounter_init (OfCounter (unit_counter MANA)) = Ok r
       ∧ (∀ c, TalentCounter_init !! MANA = Some c → r !! MANA = Some (c + 1))
       ∧ (∀ k, k ≠ MANA → r !! k = TalentCounter_init !! k).
Proof.
  apply add_step_is_unit_merge. apply TalentCounter_init_tally.
Defined.

(** ** [ClassTalents.from_xml] *)

Lemma tag_count_cons k c elems :
  tag_count k (c :: elems)
  = (if decide (tag c = Step_value k) then 1 else 0) + tag_count k elems.
Proof. unfold tag_count. rewrite filter_cons. case_decide; simpl length; lia. Qed.

Lemma tag_count_nil k : tag_count k [] = 0.
Proof. reflexivity. Qed.

Lemma split_is_no_stat s : Step_value s ≠ "split".
Proof. by destruct s. Qed.

Lemma tally_lookup_stat (t : TalentCounter) (k : Step) :
  tally t → t !! k = Some (stat t k).
Proof. intros Ht. unfold stat. by destruct (Ht k) as [v ->]. Qed.

Lemma read_branch_counts elems : ∀ b r,
  tally b → read_branch b elems = Ok r →
  tally r ∧ (∀ k, stat r k = stat b k + tag_count k elems)
  ∧ Forall (λ c, stat_tag (tag c)) elems.
Proof.
  induction elems as [|c elems IH]; intros b r Hb H; simpl in H.
  - injection H as <-. split; [done|]. split; [|constructor].
    intros k. rewrite tag_count_nil. lia.
  - inv_bind H. inv_bind H. apply from_text_Ok in Ha.
    destruct (add_step_spec b a Hb) as (t & Ht & Htt & Hts). simpl in Ht.
    assert (a0 = t) as -> by congruence.
    destruct (IH _ _ Htt H) as (Hr & Hrs & Htags).
    split; [done|]. split; [|constructor; [by exists a|done]].
    intros k. rewrite Hrs, Hts, tag_count_cons.
    destruct (decide (a = k)) as [->|Hne].
    + rewrite decide_True by done. lia.
    + rewrite decide_False; [lia|]. intros Heq. rewrite <- Ha in Heq.
      by apply Step_value_inj in Heq.
Qed.

Lemma read_branch_total elems : ∀ b,
  tally b → Forall (λ c, stat_tag (tag c)) elems → ∃ r, read_branch b elems = Ok r.
Proof.
  induction elems as [|c elems IH]; intros b Hb Hall; simpl; [by eexists|].
  apply Forall_cons in Hall as [[k Hk] Hall].
  apply from_text_Ok in Hk. rewrite Hk. simpl.
  destruct (add_step_spec b k Hb) as (t & Ht & Htt & _). simpl in Ht.
  rewrite Ht. simpl. by apply IH.
Qed.

Lemma read_branch_raises elems : ∀ b e,
  tally b → read_branch b elems = Raise e → e = ValueError.
Proof.
  induction elems as [|c elems IH]; intros b e Hb H; simpl in H; [done|].
  destruct (from_text (tag c)) as [k|err] eqn:Hk; simpl in H.
  - destruct (add_step_spec b k Hb) as (t & Ht & Htt & _). simpl in Ht.
    rewrite Ht in H. simpl in H. by eapply IH.
  - injection H as <-. by apply from_text_Raise in Hk as [-> _].
Qed.

Lemma read_split_counts brs : ∀ split r,
  read_split split brs = Ok r →
  ∃ new, r = split ++ new ∧ Forall2 counts_children new brs
         ∧ Forall (λ br, Forall (λ c, stat_tag (tag c)) (children br)) brs.
Proof.
  induction brs as [|br brs IH]; intros split r H; simpl in H.
  - injection H as <-. exists []. by rewrite app_nil_r.
  - inv_bind H.
    destruct (read_branch_counts _ _ _ TalentCounter_init_tally Ha)
      as (Hta & Hsa & Htags).
    destruct (IH _ _ H) as (new & -> & Hnew & Hall).
    exists (a :: new). split; [by rewrite <- app_assoc|].
    split; [|by constructor]. constructor; [|done].
    intros k. rewrite (tally_lookup_stat _ _ Hta), Hsa. unfold stat.
    rewrite TalentCounter_init_lookup. simpl. f_equal.
Qed.

Lemma read_split_total brs : ∀ split,
  Forall (λ br, Forall (λ c, stat_tag (tag c)) (children br)) brs →
  ∃ r, read_split split brs = Ok r.
Proof.
  induction brs as [|br brs IH]; intros split Hall; simpl; [by eexists|].
  apply Forall_cons in Hall as [Hbr Hall].
  destruct (read_branch_total _ _ TalentCounter_init_tally Hbr) as [b ->].
  simpl. by apply IH.
Qed.

Lemma read_split_raises brs : ∀ split e,
  read_split split brs = Raise e → e = ValueError.
Proof.
  induction brs as [|br brs IH]; intros split e H; simpl in H; [done|].
  destruct (read_branch TalentCounter_init (children br)) as [b|err] eqn:Hb;
    simpl in H.
  - by eapply IH.
  - injection H as <-. by eapply read_branch_raises; [apply TalentCounter_init_tally|].
Qed.

Lemma read_steps_counts steps : ∀ talents e,
  tally (count talents) → read_steps talents steps = Ok e →
  name e = name talents
  ∧ tally (count e)
  ∧ (∀ k, stat (count e) k = stat (count talents) k + tag_count k steps)
  ∧ ∃ new, branches e = branches talents ++ new
           ∧ Forall2 split_of new (filter (λ c, tag c = "split") steps)
           ∧ Forall (λ sp, Forall (λ br, Forall (λ c, stat_tag (tag c)) (children br))
                             (findall sp "branch"))
               (filter (λ c, tag c = "split") steps).
Proof.
  induction steps as [|step steps IH]; intros talents e Htally H; simpl in H.
  - injection H as <-. split; [done|]. split; [done|].
    split; [intros k; rewrite tag_count_nil; lia|].
    exists []. rewrite app_nil_r. split; [done|]. split; constructor.
  - rewrite filter_cons.
    destruct (from_text (tag step)) as [st|err] eqn:Hst; simpl in H.
    + apply from_text_Ok in Hst.
      destruct (add_step_spec (count talents) st Htally) as (t & Ht & Htt & Hts).
      simpl in Ht. rewrite Ht in H.
      apply IH in H; [|exact Htt].
      destruct H as (Hname & He & Hes & new & Hbr & Hnew & Hval).
      simpl in *. rewrite decide_False
        by (rewrite <- Hst; apply split_is_no_stat).
      split; [done|]. split; [done|]. split; [|by exists new].
      intros k. rewrite Hes, Hts, tag_count_cons.
      destruct (decide (st = k)) as [->|Hne].
      * rewrite decide_True by done. lia.
      * rewrite decide_False; [lia|]. intros Heq. rewrite <- Hst in Heq.
        by apply Step_value_inj in Heq.
    + apply from_text_Raise in Hst as [-> Hno].
      assert (Hcount : ∀ k, tag_count k (step :: steps) = tag_count k steps).
      { intros k. rewrite tag_count_cons, decide_False; [lia|].
        intros Heq. by destruct (Hno k). }
      case_decide as Hsplit.
      * inv_bind H.
        destruct (read_split_counts _ _ _ Ha) as (sp & -> & Hsp & Hspv).
        apply IH in H; [|exact Htally].
        destruct H as (Hname & He & Hes & new & Hbr & Hnew & Hval).
        simpl in *. split; [done|]. split; [done|].
        split; [intros k; by rewrite Hcount|].
        exists (sp :: new). split; [by rewrite Hbr, <- app_assoc|].
        split; by constructor.
      * destruct (IH _ _ Htally H) as (Hname & He & Hes & new & Hbr & Hnew & Hval).
        split; [done|]. split; [done|]. split; [intros k; by rewrite Hcount|].
        by exists new.
Qed.

Lemma read_steps_total steps : ∀ talents,
  tally (count talents) →
  Forall (λ sp, Forall (λ br, Forall (λ c, stat_tag (tag c)) (children br))
                  (findall sp "branch"))
    (filter (λ c, tag c = "split") steps) →
  ∃ e, read_steps talents steps = Ok e.
Proof.
  induction steps as [|step steps IH]; intros talents Htally Hall; simpl;
    [by eexists|].
  rewrite filter_cons in Hall.
  destruct (from_text (tag step)) as [st|err] eqn:Hst; simpl.
  - destruct (add_step_spec (count talents) st Htally) as (t & Ht & Htt & _).
    simpl in Ht. rewrite Ht. apply IH; [done|].
    apply from_text_Ok in Hst. rewrite decide_False in Hall; [done|].
    rewrite <- Hst. apply split_is_no_stat.
  - apply from_text_Raise in Hst as [-> _]. case_decide as Hsplit.
    + apply Forall_cons in Hall as [Hsp Hall].
      destruct (read_split_total _ [] Hsp) as [sp ->]. simpl. by apply IH.
    + by apply IH.
Qed.

Lemma read_steps_raises steps : ∀ talents e,
  tally (count talents) → read_steps talents steps = Raise e → e = ValueError.
Proof.
  induction steps as [|step steps IH]; intros talents e Htally H; simpl in H;
    [done|].
  destruct (from_text (tag step)) as [st|err] eqn:Hst; simpl in H.
  - destruct (add_step_spec (count talents) st Htally) as (t & Ht & Htt & _).
    simpl in Ht. rewrite Ht in H. apply IH in H; [done|exact Htt].
  - apply from_text_Raise in Hst as [-> _]. case_decide as Hsplit.
    + destruct (read_split [] (findall step "branch")) as [sp|err] eqn:Hbr;
        simpl in H.
      * apply IH in H; [done|exact Htally].
      * injection H as <-. by eapply read_split_raises.
    + by eapply IH.
Qed.

Lemma ClassTalents_init_Ok n talents :
  ClassTalents_init n = Ok talents ↔
  (∃ str, n = Some str ∧ str ≠ EmptyString
          ∧ talents = {| name := str; count := TalentCounter_init; branches := [] |}).
Proof.
  unfold ClassTalents_init. split.
  - destruct n as [str|]; [|done]. case_decide; [done|]. intros [= <-]. by exists str.
  - intros (str & -> & Hne & ->). by rewrite decide_False.
Qed.

Lemma ClassTalents_init_raises n e : ClassTalents_init n = Raise e → e = ValueError.
Proof.
  unfold ClassTalents_init. destruct n as [str|]; [|by intros [= <-]].
  case_decide; [by intros [= <-]|done].
Qed.

(** X6. The class that [from_xml] returns: its name is the attribute
    [name], which is not empty; its base counter counts, for every kind,
    the children of the class element whose tag is the value of the kind;
    it has one split for each [split] child, in their order, and a split
    has one counter for each [branch] child of its element, which counts
    the children of the branch. Every counter holds every kind and no
    negative count. *)
Theorem from_xml_reads_children (xml : element) (e : ClassTalents) :
  from_xml xml = Ok e →
  attr_name xml = Some (name e)
  ∧ counts_children (count e) xml
  ∧ Forall2 split_of (branches e) (findall xml "split")
  ∧ class_ok e.
Proof.
  intros H. pose proof (from_xml_ok xml e H) as Hok.
  unfold from_xml in H. inv_bind H.
  apply ClassTalents_init_Ok in Ha as (str & Hn & Hne & ->).
  apply read_steps_counts in H; [|apply TalentCounter_init_tally].
  destruct H as (Hname & Htally & Hstat & new & Hbr & Hnew & _). simpl in *.
  split; [by rewrite Hn, Hname|]. split; [|split; [by rewrite Hbr|done]].
  intros k. rewrite (tally_lookup_stat _ _ Htally), Hstat. unfold stat.
  by rewrite TalentCounter_init_lookup.
Qed.

Lemma from_xml_reads_children_witness :
  attr_name sample_class = Some (name sample_talents)
  ∧ counts_children (count sample_talents) sample_class
  ∧ Forall2 split_of (branches sample_talents) (findall sample_class "split")
  ∧ class_ok sample_talents.
Proof.
  apply from_xml_reads_children. vm_compute. reflexivity.
Defined.

Lemma from_xml_raises (xml : element) (err : exn) :
  from_xml xml = Raise err → err = ValueError.
Proof.
  intros H. unfold from_xml in H.
  destruct (ClassTalents_init (attr_name xml)) as [talents|e0] eqn:Hinit;
    simpl in H.
  - apply ClassTalents_init_Ok in Hinit as (str & _ & _ & ->).
    eapply read_steps_raises; [|exact H]. apply TalentCounter_init_tally.
  - injection H as <-. by eapply ClassTalents_init_raises.
Qed.

Lemma from_xml_readable (xml : element) :
  readable_class xml → ∃ e, from_xml xml = Ok e.
Proof.
  intros [(n & Hn & Hne) Hall]. unfold from_xml. rewrite Hn.
  unfold ClassTalents_init. rewrite decide_False by done. simpl.
  apply read_steps_total; [apply TalentCounter_init_tally|done].
Qed.

(** X7. [from_xml] returns a class exactly when the class element has a
    non-empty attribute [name] and every child of every [branch] of every
    [split] has the value of a kind as its tag; children of the class
    element and of a split with other tags are skipped. When it raises, it
    raises [ValueError]. *)
Theorem from_xml_outcome (xml : element) :
  (readable_class xml ↔ ∃ e, from_xml xml = Ok e)
  ∧ (∀ err, from_xml xml = Raise err → err = ValueError).
Proof.
  split; [split|].
  - apply from_xml_readable.
  - intros [e H]. unfold from_xml in H. inv_bind H.
    apply ClassTalents_init_Ok in Ha as (str & Hn & Hne & ->).
    apply read_steps_counts in H; [|apply TalentCounter_init_tally].
    destruct H as (_ & _ & _ & new & _ & _ & Hall).
    split; [by exists str|done].
  - apply from_xml_raises.
Qed.

(** ** [ClassTalents.count_path] *)

Lemma py_index_in_range (l : list TalentCounter) (i : Z) :
  in_range l i → ∃ x, py_index l i = Ok x ∧ x ∈ l.
Proof.
  unfold in_range, py_index. intros Hi.
  set (n := Z.of_nat (length l)) in *.
  set (j := if i <? 0 then i + n else i).
  assert (Hj : 0 ≤ j < n) by (unfold j; destruct (Z.ltb_spec i 0); lia).
  assert ((0 <=? j) = true) as -> by (apply Z.leb_le; lia).
  assert ((j <? n) = true) as -> by (apply Z.ltb_lt; lia). simpl.
  destruct (l !! Z.to_nat j) as [x|] eqn:Hx.
  - exists x. split; [done|]. by eapply list_elem_of_lookup_2.
  - apply lookup_ge_None in Hx. lia.
Qed.

Lemma py_index_out_of_range (l : list TalentCounter) (i : Z) :
  ¬ in_range l i → py_index l i = Raise IndexError.
Proof.
  unfold in_range, py_index. intros Hi.
  set (n := Z.of_nat (length l)) in *.
  destruct (Z.ltb_spec i 0).
  - destruct (Z.leb_spec 0 (i + n)); [|done].
    destruct (Z.ltb_spec (i + n) n); [|done]. lia.
  - destruct (Z.leb_spec 0 i); [|done].
    destruct (Z.ltb_spec i n); [|done]. lia.
Qed.

Lemma count_loop_in_range pairs : ∀ res : TalentCounter,
  tally res → Forall (λ sp, in_range sp.1 sp.2) pairs →
  ∃ t, count_loop res pairs = Ok t ∧ tally t.
Proof.
  induction pairs as [|[split sel] pairs IH]; intros res Hres Hall; simpl;
    [by exists res|].
  apply Forall_cons in Hall as [Hsel Hall]. simpl in Hsel.
  destruct (py_index_in_range split sel Hsel) as (alt & -> & _). simpl.
  destruct (add_tally_spec res alt Hres) as (r & Hr & Hrt & _).
  simpl in Hr. rewrite Hr. simpl. by apply IH.
Qed.

Lemma count_loop_out_of_range pairs : ∀ res : TalentCounter,
  tally res → Exists (λ sp, ¬ in_range sp.1 sp.2) pairs →
  count_loop res pairs = Raise IndexError.
Proof.
  induction pairs as [|[split sel] pairs IH]; intros res Hres Hex;
    [by apply Exists_nil in Hex|].
  simpl. destruct (decide (in_range split sel)) as [Hsel|Hsel].
  - apply Exists_cons in Hex as [Hhd|Hex]; [done|].
    destruct (py_index_in_range split sel Hsel) as (alt & -> & _). simpl.
    destruct (add_tally_spec res alt Hres) as (r & Hr & Hrt & _).
    simpl in Hr. rewrite Hr. simpl. by apply IH.
  - by rewrite py_index_out_of_range.
Qed.

Lemma count_path_start (e : ClassTalents) :
  ∃ res, add TalentCounter_init (OfCounter (count e)) = Ok res ∧ tally res
         ∧ ∀ k, stat res k = stat (count e) k.
Proof.
  destruct (add_tally_spec TalentCounter_init (count e) TalentCounter_init_tally)
    as (res & Hres & Ht & Hs).
  exists res. split; [done|]. split; [done|]. intros k. rewrite Hs.
  unfold stat at 1. by rewrite TalentCounter_init_lookup.
Qed.

(** X8. The outcome of [count_path], for any class and any path. A path
    of another length than the number of branches raises [ValueError]. A
    path of that length resolves, to a counter that holds every kind,
    when every selector is an index of its split (from [-len] to
    [len - 1]); otherwise it raises [IndexError]. *)
Theorem count_path_outcome (e : ClassTalents) (path : list Z) :
  (length path ≠ length (branches e) → count_path e path = Raise ValueError)
  ∧ (length path = length (branches e) →
     Forall (λ sp, in_range sp.1 sp.2) (zip (branches e) path) →
     ∃ t, count_path e path = Ok t ∧ tally t)
  ∧ (length path = length (branches e) →
     ¬ Forall (λ sp, in_range sp.1 sp.2) (zip (branches e) path) →
     count_path e path = Raise IndexError).
Proof.
  destruct (count_path_start e) as (res & Hres & Ht & _).
  unfold count_path. split; [|split].
  - intros Hne. by rewrite decide_True.
  - intros Hlen Hall. rewrite decide_False by (intros Hne; by apply Hne).
    rewrite Hres. simpl. by apply count_loop_in_range.
  - intros Hlen Hnot. rewrite decide_False by (intros Hne; by apply Hne).
    rewrite Hres. simpl. apply count_loop_out_of_range; [done|].
    by apply not_Forall_Exists; [apply _|].
Qed.

Lemma py_index_elem (l : list TalentCounter) (i : Z) (x : TalentCounter) :
  py_index l i = Ok x → x ∈ l.
Proof.
  intros H. destruct (decide (in_range l i)) as [Hi|Hi].
  - destruct (py_index_in_range l i Hi) as (y & Hy & Hin). congruence.
  - by rewrite py_index_out_of_range in H.
Qed.

Lemma count_loop_grows pairs : ∀ res t : TalentCounter,
  tally res → Forall (λ sp, Forall nonneg sp.1) pairs →
  count_loop res pairs = Ok t →
  tally t ∧ ∀ k, stat res k ≤ stat t k.
Proof.
  induction pairs as [|[split sel] pairs IH]; intros res t Hres Hall H;
    simpl in H.
  - injection H as <-. split; [done|]. intros k. lia.
  - apply Forall_cons in Hall as [Hsplit Hall]. simpl in Hsplit.
    inv_bind H. inv_bind H. apply py_index_elem in Ha.
    destruct (add_tally_spec res a Hres) as (r & Hr & Hrt & Hrs).
    assert (a0 = r) as -> by (simpl in Hr; congruence).
    destruct (IH _ _ Hrt Hall H) as [Htt Hle]. split; [done|].
    intros k. specialize (Hle k). rewrite Hrs in Hle.
    assert (0 ≤ stat a k); [|lia]. apply stat_nonneg.
    eapply Forall_forall in Hsplit; [exact Hsplit|done].
Qed.

Lemma Forall_zip_fst {A B} (P : A → Prop) (l : list A) : ∀ k : list B,
  Forall P l → Forall (λ sp, P sp.1) (zip l k).
Proof.
  induction l as [|x l IH]; intros k Hall; [constructor|].
  destruct k as [|y k]; [constructor|]. apply Forall_cons in Hall as [Hx Hall].
  simpl. constructor; [done|by apply IH].
Qed.

(** X9. On a class without a negative count, a path that resolves never
    lowers a stat: every count of the resolved tally is at least the base
    count, and so is not negative. *)
Theorem count_path_at_least_base (e : ClassTalents) (path : list Z)
    (t : TalentCounter) :
  nonneg (count e) → Forall (Forall nonneg) (branches e) →
  count_path e path = Ok t →
  ∀ k, ∃ v, t !! k = Some v ∧ 0 ≤ stat (count e) k ≤ v.
Proof.
  intros Hbase Hbr H. unfold count_path in H. case_decide; [done|].
  destruct (count_path_start e) as (res & Hres & Ht & Hs).
  rewrite Hres in H. simpl in H.
  apply count_loop_grows in H as [Htt Hle]; [|done|by apply Forall_zip_fst].
  intros k. exists (stat t k). split; [by apply tally_lookup_stat|].
  specialize (Hle k). rewrite Hs in Hle.
  pose proof (stat_nonneg _ k Hbase). lia.
Qed.

Lemma count_path_at_least_base_witness :
  ∃ v, <[ATTACK := 3]> (<[DEFENSE := 1]> TalentCounter_init) !! ATTACK = Some v
       ∧ 0 ≤ stat (count two_branches) ATTACK ≤ v.
Proof.
  refine (count_path_at_least_base two_branches [0; -2] _ _ _ _ ATTACK).
  - apply tally_of_nonneg; lia.
  - repeat (constructor; [repeat (constructor; [apply tally_of_nonneg; lia|]);
                          constructor|]). constructor.
  - vm_compute. reflexivity.
Defined.

(** ** [parse_priorities] *)

Lemma step_map_code s : step_map (step_code s) = Some s.
Proof. by destruct s. Qed.

Lemma step_map_Some c s : step_map c = Some s → c = step_code s.
Proof.
  unfold step_map. repeat case_decide; subst; intros [= <-]; reflexivity.
Qed.

Lemma parse_chars_Ok chars : ∀ steps,
  parse_chars chars = Ok steps ↔ chars = step_code <$> steps.
Proof.
  induction chars as [|c chars IH]; intros steps; simpl.
  - split; [intros [= <-]; done|]. by destruct steps.
  - destruct (step_map c) as [s|] eqn:Hc.
    + apply step_map_Some in Hc as ->. split.
      * intros H. inv_bind H. injection H as <-. apply IH in Ha as ->. done.
      * destruct steps as [|s' steps]; [done|]. rewrite fmap_cons.
        intros [= Hs Hrest]. apply IH in Hrest. rewrite Hrest. simpl.
        assert (s = s') as -> ; [|done].
        pose proof (step_map_code s) as H1. rewrite Hs, step_map_code in H1.
        congruence.
    + split; [done|]. destruct steps as [|s' steps]; [done|]. rewrite fmap_cons.
      intros [= -> _]. by rewrite step_map_code in Hc.
Qed.

Lemma parse_chars_unknown chars e :
  parse_chars chars = Raise e → ∃ c, c ∈ chars ∧ step_map c = None.
Proof.
  induction chars as [|c chars IH]; simpl; [done|].
  destruct (step_map c) eqn:Hc.
  - destruct (parse_chars chars); simpl; [done|]. intros [= <-].
    destruct IH as (c' & Hin & Hc'); [done|]. exists c'.
    split; [by apply list_elem_of_further|done].
  - intros _. exists c. split; [apply list_elem_of_here|done].
Qed.

(** X10. [parse_priorities] reads a string of priority codes: it returns
    the kinds [steps] exactly when the characters of the string are the
    codes of [steps], in their order (so every list of kinds can be
    written, and read back); it raises, and then [KeyError], exactly when
    a character of the string is no key of [step_map]. *)
Theorem parse_priorities_outcome :
  (∀ steps,
     parse_priorities (String.string_of_list_ascii (step_code <$> steps)) = Ok steps)
  ∧ (∀ str steps,
       parse_priorities str = Ok steps
       ↔ String.list_ascii_of_string str = step_code <$> steps)
  ∧ (∀ str,
       (∃ c, c ∈ String.list_ascii_of_string str ∧ step_map c = None)
       ↔ parse_priorities str = Raise KeyError)
  ∧ (∀ str e, parse_priorities str = Raise e → e = KeyError).
Proof.
  unfold parse_priorities. split; [|split; [|split]].
  - intros steps. rewrite String.list_ascii_of_string_of_list_ascii.
    by apply parse_chars_Ok.
  - intros str steps. apply parse_chars_Ok.
  - intros str. split.
    + intros (c & Hc & Hnone). by eapply parse_chars_bad.
    + apply parse_chars_unknown.
  - intros str e. apply parse_chars_raises.
Qed.

(** ** [itertools.product] *)

Lemma length_bind_const {A B} (f : A → list B) (l : list A) (m : nat) :
  (∀ x, length (f x) = m) → length (l ≫= f) = (length l * m)%nat.
Proof.
  intros Hf. induction l as [|x l IH]; [done|].
  rewrite bind_cons, length_app, Hf, IH. simpl. lia.
Qed.

Lemma product_enumerates_NoDup (pool : list Z) (n : nat) :
  NoDup pool → NoDup (product pool n).
Proof.
  intros Hpool. induction n as [|n IH]; [apply NoDup_singleton|].
  change (product pool (S n))
    with (pool ≫= λ x, (λ tl, x :: tl) <$> product pool n).
  apply NoDup_bind; [| |done].
  - intros x1 x2 p _ _ H1 H2.
    apply list_elem_of_fmap in H1 as (tl1 & -> & _).
    apply list_elem_of_fmap in H2 as (tl2 & [= -> _] & _). done.
  - intros x _. apply NoDup_fmap_2; [|done]. by intros tl1 tl2 [= ->].
Qed.

(** X11. [product(pool, repeat=n)] lists exactly the sequences of length
    [n] over the pool; it has [len(pool) ^ n] elements; and it lists no
    sequence twice when the pool has no repeated element. *)
Theorem product_enumerates (pool : list Z) (n : nat) :
  (∀ p, p ∈ product pool n ↔ length p = n ∧ Forall (λ x, x ∈ pool) p)
  ∧ length (product pool n) = (length pool ^ n)%nat
  ∧ (NoDup pool → NoDup (product pool n)).
Proof.
  split; [|split].
  - induction n as [|n IH]; intros p.
    + simpl. rewrite list_elem_of_singleton. split.
      * intros ->. split; [done|constructor].
      * intros [Hlen _]. by destruct p.
    + change (product pool (S n))
        with (pool ≫= λ x, (λ tl, x :: tl) <$> product pool n).
      rewrite list_elem_of_bind. split.
      * intros (x & Hp & Hx). apply list_elem_of_fmap in Hp as (tl & -> & Htl).
        apply IH in Htl as [Hlen Hall]. split; [simpl; by rewrite Hlen|].
        by constructor.
      * intros [Hlen Hall]. destruct p as [|x tl]; [done|].
        apply Forall_cons in Hall as [Hx Hall]. exists x. split; [|done].
        apply list_elem_of_fmap. exists tl. split; [done|]. apply IH.
        split; [|done]. simpl in Hlen. lia.
  - induction n as [|n IH]; [done|].
    change (product pool (S n))
      with (pool ≫= λ x, (λ tl, x :: tl) <$> product pool n).
    rewrite (length_bind_const _ _ (length pool ^ n)).
    + simpl. lia.
    + intros x. by rewrite length_fmap.
  - apply product_enumerates_NoDup.
Qed.

(** ** The arguments of [main] *)

Lemma best_paths_of_no_goal : best_paths_of [] = Raise ValueError.
Proof. vm_compute. reflexivity. Qed.

(** X12. With fewer than two positional arguments there is no pair of a
    class and its priorities, so no goal: [main] raises the [ValueError]
    of [max] on an empty sequence, whatever the classes. *)
Theorem main_without_goal (classes : gmap string ClassTalents) (goal : list string) :
  (length goal < 2)%nat → main classes goal = Raise ValueError.
Proof.
  intros Hlen. unfold main.
  destruct goal as [|n [|p goal]]; simpl in Hlen; try lia; simpl;
    apply best_paths_of_no_goal.
Qed.

Lemma main_without_goal_witness :
  main {["wizard" := seven_branches]} ["wizard"] = Raise ValueError.
Proof. apply main_without_goal. simpl. lia. Defined.

Lemma pairs_drop_last {A} (x : A) (n : nat) : ∀ goal : list A,
  length goal = (2 * n)%nat →
  zip (islice_even (goal ++ [x])) (islice_odd (goal ++ [x]))
  = zip (islice_even goal) (islice_odd goal).
Proof.
  induction n as [|n IH]; intros goal Hlen.
  - by destruct goal.
  - destruct goal as [|a [|b goal]]; simpl in Hlen; try lia.
    simpl. f_equal. apply IH. lia.
Qed.

(** X13. The positional arguments are read in pairs; a last argument
    without a partner is dropped: [main] with an odd number of arguments
    does what it does without the last one. *)
Theorem main_drops_unpaired_argument (classes : gmap string ClassTalents)
    (goal : list string) (last : string) (n : nat) :
  length goal = (2 * n)%nat →
  main classes (goal ++ [last]) = main classes goal.
Proof.
  intros Hlen. unfold main. by rewrite (pairs_drop_last last n goal Hlen).
Qed.

Lemma main_drops_unpaired_argument_witness :
  main {["wizard" := seven_branches]} (["wizard"; "da"] ++ ["monk"])
  = main {["wizard" := seven_branches]} ["wizard"; "da"].
Proof. apply (main_drops_unpaired_argument _ _ _ 1). reflexivity. Defined.

(** ** A round of the filter *)

(** X14. A round over candidates whose values can be read, from
    [current_max = 0]: the survivors are, in their order, the candidates
    whose value is not negative and is the largest of all; so no candidate
    survives exactly when every value is negative. *)
Theorem select_keeps_largest_from_zero (val : list Z → result Z) (f : list Z → Z)
    (paths : list (list Z)) :
  (∀ p, p ∈ paths → val p = Ok (f p)) →
  ∃ S, select val paths [] 0 = Ok S
       ∧ S `sublist_of` paths
       ∧ (∀ p, p ∈ S ↔ p ∈ paths ∧ 0 ≤ f p ∧ ∀ q, q ∈ paths → f q ≤ f p)
       ∧ (S = [] ↔ ∀ p, p ∈ paths → f p < 0).
Proof.
  intros Hval. eexists. split.
  { rewrite (select_spec val f) by done.
    replace (if decide (0 < max_from f 0 paths) then [] else [])
      with (@nil (list Z)) by (by case_decide). reflexivity. }
  simpl. set (M := max_from f 0 paths).
  assert (HM0 : 0 ≤ M) by apply max_from_ge_cur.
  assert (Hge : ∀ q, q ∈ paths → f q ≤ M) by (intros; by apply max_from_ge).
  assert (Hmem : ∀ p, p ∈ filter (λ p, f p = M) paths
                      ↔ p ∈ paths ∧ 0 ≤ f p ∧ ∀ q, q ∈ paths → f q ≤ f p).
  { intros p. rewrite list_elem_of_filter. split.
    - intros [Hp Hin]. split; [done|]. split; [lia|]. intros q Hq.
      rewrite Hp. by apply Hge.
    - intros (Hin & Hp0 & Hmax). split; [|done]. specialize (Hge p Hin).
      destruct (max_from_attained f paths 0) as [H0|(q & Hq & Hfq)];
        fold M in H0 || fold M in Hfq; [lia|].
      specialize (Hmax q Hq). lia. }
  split; [apply sublist_filter|]. split; [exact Hmem|]. split.
  - intros Hnil p Hp. destruct (Z.lt_ge_cases (f p) 0) as [|Hp0]; [done|].
    exfalso.
    assert (∃ q, q ∈ filter (λ p, f p = M) paths) as [q Hq].
    { destruct (max_from_attained f paths 0) as [H0|(q & Hq & Hfq)];
        fold M in H0 || fold M in Hfq.
      - exists p. apply list_elem_of_filter. split; [|done].
        specialize (Hge p Hp). lia.
      - exists q. by apply list_elem_of_filter. }
    rewrite Hnil in Hq. by apply elem_of_nil in Hq.
  - intros Hneg. apply elem_of_nil_inv. intros p Hp.
    apply Hmem in Hp as (Hin & Hp0 & _). specialize (Hneg p Hin). lia.
Qed.

Lemma select_keeps_largest_from_zero_witness :
  ∃ S, select (λ p, Ok (foldr Z.add (-1) p)) [[0; 1]; [-3]; [1]; [0; 0]] [] 0 = Ok S
       ∧ S `sublist_of` [[0; 1]; [-3]; [1]; [0; 0]]
       ∧ (∀ p, p ∈ S ↔ p ∈ [[0; 1]; [-3]; [1]; [0; 0]] ∧ 0 ≤ foldr Z.add (-1) p
                        ∧ ∀ q, q ∈ [[0; 1]; [-3]; [1]; [0; 0]] →
                               foldr Z.add (-1) q ≤ foldr Z.add (-1) p)
       ∧ (S = [] ↔ ∀ p, p ∈ [[0; 1]; [-3]; [1]; [0; 0]] → foldr Z.add (-1) p < 0).
Proof.
  apply (select_keeps_largest_from_zero (λ p, Ok (foldr Z.add (-1) p))
           (foldr Z.add (-1))). reflexivity.
Defined.

(** ** The paths that [main] returns *)

(** X15. Whatever the classes and the arguments, the paths that [main]
    returns are candidates in the order of [product]: a sublist of the
    128 binary paths of length 7, without a repeated path. *)
Theorem main_returns_candidates (classes : gmap string ClassTalents)
    (goal : list string) (S : list (list Z)) :
  main classes goal = Ok S →
  S `sublist_of` product [0; 1] 7
  ∧ NoDup S
  ∧ (length S ≤ 128)%nat
  ∧ ∀ p, p ∈ S → length p = 7%nat ∧ binary p.
Proof.
  intros H. unfold main in H. inv_bind H. unfold best_paths_of, evaluate in H.
  inv_bind H. apply eliminate_sublist in H.
  split; [done|]. split; [|split].
  - eapply sublist_NoDup; [|exact H].
    apply product_enumerates_NoDup. apply NoDup_cons. split; [|apply NoDup_singleton].
    intros Hin. by apply list_elem_of_singleton in Hin.
  - apply sublist_length in H. by vm_compute in H.
  - intros p Hp. apply product_binary. by eapply elem_of_sublist.
Qed.

Lemma main_returns_candidates_witness :
  [[1; 0; 0; 1; 1; 1; 1]; [1; 0; 1; 1; 1; 1; 1]] `sublist_of` product [0; 1] 7
  ∧ NoDup [[1; 0; 0; 1; 1; 1; 1]; [1; 0; 1; 1; 1; 1; 1]]
  ∧ (length [[1; 0; 0; 1; 1; 1; 1]; [1; 0; 1; 1; 1; 1; 1]] ≤ 128)%nat
  ∧ ∀ p, p ∈ [[1; 0; 0; 1; 1; 1; 1]; [1; 0; 1; 1; 1; 1; 1]] →
         length p = 7%nat ∧ binary p.
Proof.
  apply (main_returns_candidates {["wizard" := seven_branches]} ["wizard"; "da"]).
  vm_compute. reflexivity.
Defined.

(** ** The order of the priorities *)

Lemma rounds_single results (g : Goal) (suffix : list Step) : ∀ k best,
  drop k (priorities g) = suffix →
  rounds results [g] (seq k (length suffix)) best
  = selects ((λ prio, stat_of results (name (cls g)) prio) <$> suffix) best.
Proof.
  induction suffix as [|prio suffix IH]; intros k best Hdrop; [done|].
  assert (Hk : priorities g !! k = Some prio).
  { pose proof (lookup_drop (priorities g) k 0) as H.
    rewrite Hdrop, Nat.add_0_r in H. by rewrite <- H. }
  assert (Hrest : drop (S k) (priorities g) = suffix).
  { replace (S k) with (k + 1)%nat by lia.
    by rewrite <- drop_drop, Hdrop. }
  simpl. unfold goal_round. rewrite Hk.
  destruct (select _ best [] 0) as [best'|e]; simpl; [by apply IH|done].
Qed.

Lemma eliminate_one_goal results (g : Goal) (best : list (list Z)) :
  eliminate results [g] best
  = rounds results [g] (seq 0 (length (priorities g))) best.
Proof. reflexivity. Qed.

Section Lexicographic.

(** Values that can be read, and are not negative, on the candidates. *)
Variable val : Step → list Z → result Z.
Variable f : Step → list Z → Z.
Variable candidates : list (list Z).
Hypothesis val_f : ∀ prio p, p ∈ candidates → val prio p = Ok (f prio p) ∧ 0 ≤ f prio p.

Lemma selects_lexicographic (prios : list Step) : ∀ S,
  S `sublist_of` candidates →
  ∃ R, selects (val <$> prios) S = Ok R
       ∧ ∀ p, p ∈ R ↔ p ∈ S ∧ ∀ q, q ∈ S →
                lex_le ((λ prio, f prio q) <$> prios) ((λ prio, f prio p) <$> prios).
Proof.
  induction prios as [|prio prios IH]; intros S Hsub.
  - exists S. split; [done|]. intros p. simpl. split; [by intros Hp|by intros [Hp _]].
  - destruct (select_maxima (val prio) (f prio) S) as (S1 & HS1 & Hsub1 & _ & Hmem).
    { intros p Hp. apply val_f. by eapply elem_of_sublist. }
    destruct (IH S1) as (R & HR & HmemR); [by etrans|].
    exists R. split; [simpl; by rewrite HS1|].
    intros p. rewrite HmemR, Hmem. simpl. split.
    + intros [[Hp Hmax] Hlex]. split; [done|]. intros q Hq.
      destruct (Z.lt_total (f prio q) (f prio p)) as [Hlt|[Heq|Hgt]].
      * by left.
      * right. split; [done|]. apply Hlex. apply Hmem. split; [done|].
        intros q' Hq'. rewrite Heq. by apply Hmax.
      * specialize (Hmax q Hq). lia.
    + intros [Hp Hlex]. split; [split; [done|]|].
      * intros q Hq. destruct (Hlex q Hq) as [?|[? _]]; lia.
      * intros q Hq. apply Hmem in Hq as [Hq Hqmax].
        destruct (Hlex q Hq) as [Hlt|[_ ?]]; [|done].
        specialize (Hqmax p Hp). lia.
Qed.

End Lexicographic.

(** X16. The priorities are lexicographic. For a single goal over a
    well-formed class with any list of priorities, the evaluator returns
    exactly the binary paths of length 7 whose counts, in the kinds of the
    priorities in their order, are lexicographically largest: the first
    priority decides, and a later one only breaks the ties of the earlier
    ones. *)
Theorem priorities_are_lexicographic (e : ClassTalents) (prios : list Step) :
  wf_class e →
  ∃ S, best_paths_of [{| cls := e; priorities := prios |}] = Ok S ∧
    ∀ p, p ∈ S ↔
      (length p = 7%nat ∧ binary p)
      ∧ ∀ q, length q = 7%nat → binary q →
             lex_le (scores e prios q) (scores e prios p).
Proof.
  intros Hwf. set (g := {| cls := e; priorities := prios |}).
  destruct (results_wf [g]) as (results & Hres & Hread).
  { constructor; [exact Hwf|constructor]. }
  assert (Hval : ∀ prio p, p ∈ product [0; 1] 7 →
            stat_of results (name e) prio p = Ok (path_stat e prio p)
            ∧ 0 ≤ path_stat e prio p).
  { intros prio p Hp.
    destruct (Hread g prio p) as (g' & t & v & Hg' & _ & Ht & Hv & Hv0 & Hs);
      [apply list_elem_of_here|done|].
    apply list_elem_of_singleton in Hg' as ->. simpl in Ht, Hs.
    unfold path_stat, stat. rewrite Ht, Hv. by split. }
  destruct (selects_lexicographic (stat_of results (name e)) (path_stat e)
              (product [0; 1] 7) Hval prios (product [0; 1] 7))
    as (S & HS & Hmem); [done|].
  exists S. split.
  - unfold best_paths_of.
    rewrite (evaluate_results _ _ _ Hres), eliminate_one_goal.
    change (length (priorities g)) with (length prios).
    by rewrite (rounds_single results g prios 0 (product [0; 1] 7)).
  - intros p. rewrite Hmem, product_binary. unfold scores. split.
    + intros [Hp Hlex]. split; [done|]. intros q Hlen Hbin. apply Hlex.
      by apply product_binary.
    + intros [Hp Hlex]. split; [done|]. intros q Hq.
      apply product_binary in Hq as [Hlen Hbin]. by apply Hlex.
Qed.

Lemma priorities_are_lexicographic_witness :
  ∃ S, best_paths_of [{| cls := seven_branches; priorities := [DEFENSE; ATTACK] |}]
       = Ok S ∧
    ∀ p, p ∈ S ↔
      (length p = 7%nat ∧ binary p)
      ∧ ∀ q, length q = 7%nat → binary q →
             lex_le (scores seven_branches [DEFENSE; ATTACK] q)
                    (scores seven_branches [DEFENSE; ATTACK] p).
Proof.
  apply priorities_are_lexicographic. exact seven_branches_wf.
Defined.

End TalentsMore.

(** * Loading the classes *)

Module TalentsDataMore.
Import Talents TalentsSpec TalentsSpecMore TalentsProofs TalentsMore TalentsData.

Lemma read_classes_app l1 : ∀ l2 acc,
  read_classes acc (l1 ++ l2) = acc' ← read_classes acc l1; read_classes acc' l2.
Proof.
  induction l1 as [|x l1 IH]; intros l2 acc; simpl; [done|].
  destruct (from_xml x) as [c|e]; simpl; [apply IH|done].
Qed.

Lemma read_files_flat roots : ∀ data,
  read_files data roots
  = cs ← read_classes (classes data) (class_elements roots); Ok {| classes := cs |}.
Proof.
  induction roots as [|root roots IH]; intros data.
  - by destruct data.
  - unfold class_elements. rewrite bind_cons, read_classes_app. simpl. unfold read.
    destruct (read_classes (classes data) (findall root "class")) as [cs|e];
      simpl; [|done].
    by rewrite IH.
Qed.

Lemma read_classes_keeps elems : ∀ acc r n c,
  read_classes acc elems = Ok r → acc !! n = Some c →
  (∀ y c', y ∈ elems → from_xml y = Ok c' → name c' ≠ n) →
  r !! n = Some c.
Proof.
  induction elems as [|x elems IH]; intros acc r n c H Hn Hno; simpl in H.
  - by injection H as <-.
  - inv_bind H. eapply IH; [exact H| |].
    + rewrite lookup_insert_ne; [done|].
      eapply Hno; [apply list_elem_of_here|done].
    + intros y c' Hy. apply Hno. by apply list_elem_of_further.
Qed.

Lemma read_classes_origin elems : ∀ acc r n c,
  read_classes acc elems = Ok r → r !! n = Some c →
  acc !! n = Some c
  ∨ ∃ xml, xml ∈ elems ∧ from_xml xml = Ok c ∧ name c = n.
Proof.
  induction elems as [|x elems IH]; intros acc r n c H Hr; simpl in H.
  - injection H as <-. by left.
  - inv_bind H. destruct (IH _ _ _ _ H Hr) as [Hacc|(xml & Hin & Hxml & Hname)].
    + rewrite lookup_insert in Hacc. case_decide as Hn.
      * injection Hacc as <-. right. exists x.
        split; [apply list_elem_of_here|done].
      * by left.
    + right. exists xml. split; [by apply list_elem_of_further|done].
Qed.

Lemma read_classes_empty elems : ∀ acc r,
  read_classes acc elems = Ok r → r = ∅ → acc = ∅ ∧ elems = [].
Proof.
  induction elems as [|x elems IH]; intros acc r H Hr; simpl in H.
  - injection H as <-. done.
  - inv_bind H. destruct (IH _ _ H Hr) as [Hins _].
    by apply insert_non_empty in Hins.
Qed.

Lemma read_classes_raises elems : ∀ acc e,
  read_classes acc elems = Raise e →
  e = ValueError ∧ ∃ xml, xml ∈ elems ∧ from_xml xml = Raise ValueError.
Proof.
  induction elems as [|x elems IH]; intros acc e H; simpl in H; [done|].
  destruct (from_xml x) as [c|e0] eqn:Hx; simpl in H.
  - destruct (IH _ _ H) as (-> & xml & Hin & Hxml). split; [done|].
    exists xml. split; [by apply list_elem_of_further|done].
  - injection H as <-. apply from_xml_raises in Hx as Hv. subst e0.
    split; [done|]. exists x. split; [apply list_elem_of_here|done].
Qed.

Lemma read_classes_total elems : ∀ acc,
  (∀ xml, xml ∈ elems → readable_class xml) → ∃ r, read_classes acc elems = Ok r.
Proof.
  induction elems as [|x elems IH]; intros acc Hall; simpl; [by eexists|].
  destruct (from_xml_readable x) as [c ->]; [apply Hall, list_elem_of_here|].
  simpl. apply IH. intros xml Hxml. by apply Hall, list_elem_of_further.
Qed.

Lemma from_files_Loaded roots data :
  from_files roots = Loaded data ↔
  read_classes ∅ (class_elements roots) = Ok (classes data) ∧ classes data ≠ ∅.
Proof.
  unfold from_files. rewrite read_files_flat. simpl.
  destruct (read_classes ∅ (class_elements roots)) as [cs|e]; simpl.
  - case_decide as Hcs; simpl in Hcs.
    + split; [done|]. intros [[= <-] Hne]. done.
    + split.
      * intros [= <-]. done.
      * intros [[= Heq] _]. destruct data as [cs']. simpl in Heq. by subst.
  - split; [done|]. by intros [? _].
Qed.

(** X17. The data that [from_files] returns: it holds a class at least;
    every class is stored under its own name, holds every kind in each of
    its counters and no negative count, and was read by [from_xml] from a
    [class] element of a file. *)
Theorem from_files_loaded (roots : list element) (data : Data) :
  from_files roots = Loaded data →
  classes data ≠ ∅
  ∧ ∀ n c, classes data !! n = Some c →
      name c = n ∧ class_ok c
      ∧ ∃ xml, xml ∈ class_elements roots ∧ from_xml xml = Ok c.
Proof.
  intros H. apply from_files_Loaded in H as [H Hne]. split; [done|].
  intros n c Hc. destruct (read_classes_origin _ _ _ _ _ H Hc)
    as [Hempty|(xml & Hin & Hxml & Hname)]; [by rewrite lookup_empty in Hempty|].
  split; [done|]. split; [by eapply from_xml_ok|]. by exists xml.
Qed.

Lemma from_files_loaded_witness :
  classes {| classes := {["wizard" := sample_talents]} |} ≠ ∅
  ∧ ∀ n c, classes {| classes := {["wizard" := sample_talents]} |} !! n = Some c →
      name c = n ∧ class_ok c
      ∧ ∃ xml, xml ∈ class_elements [sample_file] ∧ from_xml xml = Ok c.
Proof.
  apply from_files_loaded. vm_compute. reflexivity.
Defined.

(** X18. A class that is defined again replaces the earlier definition
    of its name: of the [class] elements of all the files, in reading
    order, the last one of a name is the class that the data holds under
    that name. *)
Theorem from_files_last_definition (roots : list element) (data : Data)
    (before after : list element) (xml : element) (c : ClassTalents) :
  from_files roots = Loaded data →
  class_elements roots = before ++ xml :: after →
  from_xml xml = Ok c →
  (∀ y c', y ∈ after → from_xml y = Ok c' → name c' ≠ name c) →
  classes data !! name c = Some c.
Proof.
  intros H Hsplit Hxml Hlast. apply from_files_Loaded in H as [H _].
  rewrite Hsplit, read_classes_app in H. inv_bind H. simpl in H.
  rewrite Hxml in H. simpl in H.
  eapply read_classes_keeps; [exact H| |done]. apply lookup_insert_eq.
Qed.

Lemma from_files_last_definition_witness :
  classes {| classes := {["wizard" := sample_talents]} |} !! name sample_talents
  = Some sample_talents.
Proof.
  apply (from_files_last_definition
           [Element "classes" None [Element "class" (Some "wizard") []]; sample_file]
           _ [Element "class" (Some "wizard") []] [] sample_class).
  - vm_compute. reflexivity.
  - reflexivity.
  - vm_compute. reflexivity.
  - intros y c' Hy. by apply elem_of_nil in Hy.
Defined.

(** X19. When [from_files] fails. It raises [RuntimeError] exactly when
    the files hold no [class] element. Any other exception is the
    [ValueError] of [from_xml] on a [class] element. When every [class]
    element can be read and there is one, the data is returned. *)
Theorem from_files_failures (roots : list element) :
  (from_files roots = Failed RuntimeError ↔ class_elements roots = [])
  ∧ (∀ e, from_files roots = Failed (Reraised e) →
          e = ValueError
          ∧ ∃ xml, xml ∈ class_elements roots ∧ from_xml xml = Raise ValueError)
  ∧ ((∀ xml, xml ∈ class_elements roots → readable_class xml) →
     class_elements roots ≠ [] →
     ∃ data, from_files roots = Loaded data).
Proof.
  unfold from_files. rewrite read_files_flat. simpl. split; [|split].
  - destruct (read_classes ∅ (class_elements roots)) as [cs|e] eqn:H; simpl.
    + case_decide as Hcs; simpl in Hcs.
      * split; [|done]. intros _. by apply read_classes_empty in H as [_ ?].
      * split; [done|]. intros Hnil. rewrite Hnil in H. injection H as <-. done.
    + split; [done|]. intros Hnil. by rewrite Hnil in H.
  - intros e. destruct (read_classes ∅ (class_elements roots)) as [cs|e0] eqn:H;
      simpl.
    + by case_decide.
    + intros [= <-]. by eapply read_classes_raises.
  - intros Hall Hne. destruct (read_classes_total _ ∅ Hall) as [cs H].
    rewrite H. simpl. case_decide as Hcs; simpl in Hcs.
    + by apply read_classes_empty in H as [_ ?].
    + by eexists.
Qed.

(** ** Goals over loaded classes *)

Lemma build_goals_inv classes pairs : ∀ goals,
  build_goals classes pairs = Ok goals →
  ∀ g, g ∈ goals →
    ∃ n p, (n, p) ∈ pairs ∧ classes !! n = Some (cls g)
           ∧ parse_priorities p = Ok (priorities g).
Proof.
  induction pairs as [|[n p] pairs IH]; intros goals H g Hg; simpl in H.
  - injection H as <-. by apply elem_of_nil in Hg.
  - inv_bind H. inv_bind H. inv_bind H. injection H as <-.
    unfold getitem in Ha. destruct (classes !! n) as [c|] eqn:Hn; [|done].
    injection Ha as <-.
    apply elem_of_cons in Hg as [->|Hg].
    + exists n, p. split; [apply list_elem_of_here|done].
    + destruct (IH _ Ha1 g Hg) as (n' & p' & Hin & Hrest).
      exists n', p'. split; [by apply list_elem_of_further|done].
Qed.

(** X20. Over loaded classes, the dict of results holds, for every goal,
    the tally of the goal's own class: a class is stored under its name,
    so two goals of one name have the same class, and the entry
    [results[path][g.cls.name]], which the last goal of a name writes, is
    [g.cls.count_path(path)] for every goal [g]. *)
Theorem loaded_goals_read_own_class (roots : list element) (data : Data)
    (pairs : list (string * string)) (goals : list Goal)
    (paths : list (list Z)) (results : gmap (list Z) (gmap string TalentCounter)) :
  from_files roots = Loaded data →
  build_goals (classes data) pairs = Ok goals →
  build_results goals paths ∅ = Ok results →
  ∀ g p prio, g ∈ goals → p ∈ paths →
    ∃ t, count_path (cls g) p = Ok t
         ∧ stat_of results (name (cls g)) prio p = getitem t prio.
Proof.
  intros Hload Hgoals Hres g p prio Hg Hp.
  apply from_files_Loaded in Hload as [Hload _].
  assert (Hown : ∀ g', g' ∈ goals → classes data !! name (cls g') = Some (cls g')).
  { intros g' Hg'. destruct (build_goals_inv _ _ _ Hgoals g' Hg')
      as (n & _ & _ & Hn & _).
    destruct (read_classes_origin _ _ _ _ _ Hload Hn)
      as [Hempty|(xml & _ & _ & Hname)]; [by rewrite lookup_empty in Hempty|].
    by rewrite Hname. }
  destruct (build_results_inv _ _ _ _ Hres p) as [[_ (d & Hd & Hrp)]|[Hno _]];
    [|done].
  destruct (path_counts_inv _ _ _ _ Hd (name (cls g)))
    as [[_ Hno]|(g' & t & Hg' & Hname & Ht & Hdn)]; [by destruct (Hno g Hg)|].
  assert (cls g' = cls g) as Hsame.
  { pose proof (Hown g Hg) as H1. pose proof (Hown g' Hg') as H2.
    rewrite Hname in H2. congruence. }
  exists t. split; [by rewrite <- Hsame|].
  unfold stat_of, getitem. rewrite Hrp. simpl. by rewrite Hdn.
Qed.

Lemma loaded_goals_read_own_class_witness :
  ∃ t, count_path sample_talents [1] = Ok t
       ∧ stat_of
           (<[[0] := {["wizard" := <[TALENT := 1]> (<[ATTACK := 2]>
                        (<[MANA := 1]> (<[HEAL := 1]> TalentCounter_init)))]}]>
              {[[1] := {["wizard" := <[TALENT := 1]> (<[ATTACK := 3]>
                         TalentCounter_init)]}]})
           (name sample_talents) ATTACK [1]
         = getitem t ATTACK.
Proof.
  refine (loaded_goals_read_own_class [sample_file]
            {| classes := {["wizard" := sample_talents]} |} [("wizard", "a")]
            [{| cls := sample_talents; priorities := [ATTACK] |}] [[0]; [1]] _
            _ _ _ {| cls := sample_talents; priorities := [ATTACK] |} [1] ATTACK _ _).
  - vm_compute. reflexivity.
  - vm_compute. reflexivity.
  - vm_compute. reflexivity.
  - apply list_elem_of_here.
  - apply list_elem_of_further, list_elem_of_here.
Defined.

End TalentsDataMore.

(** * Further properties of the simulator *)

Module TrainingMore.
Import Training TrainingSpec TrainingProofs.

(** ** The level and the draws of a run *)

(** An iteration raises the level by one at most, and ends the run only
    at level 8. *)
Lemma body_level (steps : Z) (step : Step) (asc0 : Z) (rest : list Z)
    (level draw : Z) (ctl : control) :
  body steps step asc0 rest level draw = Ok ctl →
  (ctl = Break ∧ level ≤ 8 ≤ level + 1)
  ∨ ∃ asc' level', ctl = Next asc' level' ∧ level ≤ level' ≤ level + 1.
Proof.
  unfold body. destruct (do_steps_of steps step asc0) as [d|e]; simpl; [|done].
  set (level' := level_after d step level draw).
  assert (Hl : level ≤ level' ≤ level + 1).
  { unfold level', level_after. destruct (draw <? d * chance step); lia. }
  clearbody level'. destruct (Z.eqb_spec level' 8) as [->|_].
  - intros [= <-]. left. split; [done|lia].
  - destruct (_ <=? 0); intros [= <-]; right; by do 2 eexists.
Qed.

Lemma while_asc_draws (draws : nat → Z) (steps : Z) (step : Step) (fuel : nat) :
  ∀ asc level rng success rng',
    while_asc draws fuel steps step asc level rng = Some (Ok (success, rng')) →
    (rng ≤ rng')%nat
    ∧ (success = true → Z.of_nat rng + (8 - level) ≤ Z.of_nat rng').
Proof.
  induction fuel as [|fuel IH]; intros [|asc0 rest] level rng success rng' H;
    simpl in H; try done.
  - injection H as <- <-. split; [lia|done].
  - injection H as <- <-. split; [lia|done].
  - destruct (body steps step asc0 rest level (draws rng)) as [ctl|e] eqn:Hbody;
      [|done].
    destruct (body_level _ _ _ _ _ _ _ Hbody)
      as [[-> Hl]|(asc' & level' & -> & Hl)].
    + injection H as <- <-. split; lia.
    + apply IH in H as [Hrng Hs]. split; [lia|]. intros Hsucc.
      specialize (Hs Hsucc). lia.
Qed.

Lemma runs_loop_bounds (draws : nat → Z) (fuel : nat) (ascensions : list Z)
    (steps : Z) (step : Step) (runs : nat) :
  ∀ successes rng successes' rng',
    runs_loop draws fuel ascensions steps step runs successes rng
    = Some (Ok (successes', rng')) →
    successes ≤ successes' ≤ successes + Z.of_nat runs
    ∧ Z.of_nat rng + 7 * (successes' - successes) ≤ Z.of_nat rng'.
Proof.
  induction runs as [|runs IH]; intros successes rng successes' rng' H;
    simpl in H.
  - injection H as <- <-. lia.
  - destruct (while_asc draws fuel steps step ascensions 1 rng)
      as [[[success rng1]|e]|] eqn:Hrun; try done.
    apply while_asc_draws in Hrun as [Hrng Hs].
    apply IH in H as [Hb Hd]. destruct success.
    + specialize (Hs eq_refl). lia.
    + lia.
Qed.

Lemma compute_Ok (draws : nat → Z) (fuel : nat) (ascensions : list Z)
    (steps num_runs : Z) (step : Step) (rng : nat) (successes : Z) (rng' : nat) :
  compute draws fuel ascensions steps num_runs step rng
  = Some (Ok (successes, rng')) →
  num_runs ≠ 0
  ∧ runs_loop draws fuel ascensions steps step (Z.to_nat num_runs) 0 rng
    = Some (Ok (successes, rng')).
Proof.
  unfold compute.
  destruct (runs_loop draws fuel ascensions steps step (Z.to_nat num_runs) 0 rng)
    as [[[s r]|e]|]; try done.
  destruct (Z.eqb_spec num_runs 0); [done|]. by intros [= <- <-].
Qed.

(** X21. The count that [compute] reports is a count of runs: it is not
    negative and not above the number of runs, whatever the
    requirements, the resource, the batch and the draws. *)
Theorem successes_within_runs (draws : nat → Z) (fuel : nat) (ascensions : list Z)
    (steps num_runs : Z) (step : Step) (rng : nat) (successes : Z) (rng' : nat) :
  compute draws fuel ascensions steps num_runs step rng
  = Some (Ok (successes, rng')) →
  0 ≤ successes ≤ Z.max 0 num_runs.
Proof.
  intros H. apply compute_Ok in H as [_ H].
  apply runs_loop_bounds in H as [H _]. lia.
Qed.

Lemma successes_within_runs_witness : 0 ≤ 3 ≤ Z.max 0 3.
Proof.
  apply (successes_within_runs (λ i, Z.of_nat i mod 100) 7
           [180; 360; 720; 900; 1080; 1440; 1800] 10 3
           {| xp := 180; chance := 100 |} 0 3 21).
  vm_compute. reflexivity.
Defined.

(** X22. Level 8 is seven levels above level 1 and a draw raises the
    level by one at most: every success costs at least 7 draws. The
    generator has made at least [7 * successes] draws when [compute]
    returns. *)
Theorem success_costs_seven_draws (draws : nat → Z) (fuel : nat)
    (ascensions : list Z) (steps num_runs : Z) (step : Step) (rng : nat)
    (successes : Z) (rng' : nat) :
  compute draws fuel ascensions steps num_runs step rng
  = Some (Ok (successes, rng')) →
  Z.of_nat rng + 7 * successes ≤ Z.of_nat rng'.
Proof.
  intros H. apply compute_Ok in H as [_ H].
  apply runs_loop_bounds in H as [_ H]. lia.
Qed.

Lemma success_costs_seven_draws_witness :
  Z.of_nat 0 + 7 * 3 ≤ Z.of_nat 21.
Proof.
  apply (success_costs_seven_draws (λ i, Z.of_nat i mod 100) 7
           [180; 360; 720; 900; 1080; 1440; 1800] 10 3
           {| xp := 180; chance := 100 |} 0 3 21).
  vm_compute. reflexivity.
Defined.

(** ** Runs that cannot succeed *)



Section ZeroChance.

Variable draws : nat → Z.
Variables (steps : Z) (step : Step).
Hypothesis draws_nonneg : ∀ i, 0 ≤ draws i.
Hypothesis xp_positive : 0 < xp step.
Hypothesis steps_positive : 1 ≤ steps.
Hypothesis chance_zero : chance step = 0.



End ZeroChance.





(** ** Edge inputs of [compute] *)

Lemma runs_loop_no_requirement (draws : nat → Z) (fuel : nat) (steps : Z)
    (step : Step) (runs : nat) : ∀ successes rng,
  runs_loop draws fuel [] steps step runs successes rng = Some (Ok (successes, rng)).
Proof.
  induction runs as [|runs IH]; intros successes rng; [done|].
  cbn [runs_loop]. destruct fuel; simpl; apply IH.
Qed.

(** X25. The edge inputs of [compute]. With [num_runs = 0] no run is
    made and the percentage divides by zero: [ZeroDivisionError]. With a
    negative [num_runs] no run is made and no success is counted. With an
    empty list of requirements every run ends at once, at level 1: no
    draw, no success. With an XP value of 0 the batch of the first step
    divides by zero: [ZeroDivisionError], before any draw. *)
Theorem compute_edge_inputs (draws : nat → Z) (fuel : nat) (ascensions : list Z)
    (steps num_runs : Z) (step : Step) (rng : nat) :
  (num_runs = 0 →
     compute draws fuel ascensions steps num_runs step rng
     = Some (Raise ZeroDivisionError))
  ∧ (num_runs < 0 →
     compute draws fuel ascensions steps num_runs step rng = Some (Ok (0, rng)))
  ∧ (0 < num_runs →
     compute draws fuel [] steps num_runs step rng = Some (Ok (0, rng)))
  ∧ (0 < num_runs → xp step = 0 → ascensions ≠ [] → fuel ≠ 0%nat →
     compute draws fuel ascensions steps num_runs step rng
     = Some (Raise ZeroDivisionError)).
Proof.
  unfold compute. split; [|split; [|split]].
  - intros ->. reflexivity.
  - intros Hneg. replace (Z.to_nat num_runs) with 0%nat by lia. simpl.
    destruct (Z.eqb_spec num_runs 0); [lia|done].
  - intros Hpos. rewrite runs_loop_no_requirement.
    destruct (Z.eqb_spec num_runs 0); [lia|done].
  - intros Hpos Hxp Hasc Hfuel.
    destruct (Z.to_nat num_runs) as [|runs] eqn:Hruns; [lia|].
    destruct ascensions as [|asc0 rest]; [done|].
    destruct fuel as [|fuel']; [done|].
    cbn [runs_loop while_asc]. unfold body, do_steps_of, ceil_div.
    rewrite Hxp. reflexivity.
Qed.

(** ** [main] *)


End TrainingMore.

(** * Loading the tiers *)

Module TrainingDataMore.
Import Training TrainingData TrainingSpec TrainingSpecMore.

Section WithInt.

Variable py_int : string → result Z.

Lemma read_ascensions_Ok elems : ∀ asc r,
  read_ascensions py_int asc elems = Ok r ↔
  ∃ new, r = asc ++ new
         ∧ Forall2 (λ a x, int_of py_int (text x) = Ok a) new elems.
Proof.
  induction elems as [|x elems IH]; intros asc r; simpl.
  - split.
    + intros [= <-]. exists []. by rewrite app_nil_r.
    + intros (new & -> & Hnew). apply Forall2_nil_inv_r in Hnew as ->.
      by rewrite app_nil_r.
  - split.
    + intros H. inv_bind H. apply IH in H as (new & -> & Hnew).
      exists (a :: new). split; [by rewrite <- app_assoc|by constructor].
    + intros (new & -> & Hnew).
      apply Forall2_cons_inv_r in Hnew as (a & new' & Ha & Hnew' & ->).
      rewrite Ha. simpl. apply IH. exists new'.
      split; [by rewrite <- app_assoc|done].
Qed.

(** X27. [Tier.from_xml] returns a tier exactly when the element has a
    non-empty attribute [name] that [int] reads, as the rarity, and every
    [ascension] child has a text that [int] reads: the ascensions are
    these numbers, in the order of the children; other children are
    skipped. *)
Theorem Tier_from_xml_reads (xml : element) (tier : Tier) :
  Tier_from_xml py_int xml = Ok tier ↔
  ∃ n, attr_name xml = Some n ∧ n ≠ EmptyString
       ∧ py_int n = Ok (rarity tier)
       ∧ Forall2 (λ a x, int_of py_int (text x) = Ok a)
           (ascensions tier) (findall xml "ascension").
Proof.
  unfold Tier_from_xml, Tier_init. split.
  - intros H. inv_bind H. destruct (attr_name xml) as [n|]; [|done].
    case_decide; [done|]. inv_bind Ha. injection Ha as <-. simpl in H.
    inv_bind H. injection H as <-. simpl.
    apply read_ascensions_Ok in Ha as (new & -> & Hnew).
    exists n. by repeat split.
  - intros (n & -> & Hne & Hn & Hasc). rewrite decide_False by done.
    rewrite Hn. simpl.
    assert (read_ascensions py_int [] (findall xml "ascension")
            = Ok (ascensions tier)) as ->.
    { apply read_ascensions_Ok. by exists (ascensions tier). }
    simpl. by destruct tier.
Qed.

Lemma read_tiers_app l1 : ∀ l2 acc,
  read_tiers py_int acc (l1 ++ l2)
  = acc' ← read_tiers py_int acc l1; read_tiers py_int acc' l2.
Proof.
  induction l1 as [|x l1 IH]; intros l2 acc; simpl; [done|].
  destruct (Tier_from_xml py_int x) as [c|e]; simpl; [apply IH|done].
Qed.

Lemma read_tier_files_flat roots : ∀ data,
  read_files py_int data roots
  = ts ← read_tiers py_int (tiers data) (tier_elements roots); Ok {| tiers := ts |}.
Proof.
  induction roots as [|root roots IH]; intros data.
  - by destruct data.
  - unfold tier_elements. rewrite bind_cons, read_tiers_app. simpl. unfold read.
    destruct (read_tiers py_int (tiers data) (findall root "tier")) as [ts|e];
      simpl; [|done].
    by rewrite IH.
Qed.

Lemma read_tiers_keeps elems : ∀ acc r n t,
  read_tiers py_int acc elems = Ok r → acc !! n = Some t →
  (∀ y t', y ∈ elems → Tier_from_xml py_int y = Ok t' → rarity t' ≠ n) →
  r !! n = Some t.
Proof.
  induction elems as [|x elems IH]; intros acc r n t H Hn Hno; simpl in H.
  - by injection H as <-.
  - inv_bind H. eapply IH; [exact H| |].
    + rewrite lookup_insert_ne; [done|].
      eapply Hno; [apply list_elem_of_here|done].
    + intros y t' Hy. apply Hno. by apply list_elem_of_further.
Qed.

Lemma read_tiers_origin elems : ∀ acc r n t,
  read_tiers py_int acc elems = Ok r → r !! n = Some t →
  acc !! n = Some t
  ∨ ∃ xml, xml ∈ elems ∧ Tier_from_xml py_int xml = Ok t ∧ rarity t = n.
Proof.
  induction elems as [|x elems IH]; intros acc r n t H Hr; simpl in H.
  - injection H as <-. by left.
  - inv_bind H. destruct (IH _ _ _ _ H Hr) as [Hacc|(xml & Hin & Hxml & Hrar)].
    + rewrite lookup_insert in Hacc. case_decide as Hn.
      * injection Hacc as <-. right. exists x.
        split; [apply list_elem_of_here|done].
      * by left.
    + right. exists xml. split; [by apply list_elem_of_further|done].
Qed.

Lemma read_tiers_empty elems : ∀ acc r,
  read_tiers py_int acc elems = Ok r → r = ∅ → acc = ∅ ∧ elems = [].
Proof.
  induction elems as [|x elems IH]; intros acc r H Hr; simpl in H.
  - injection H as <-. done.
  - inv_bind H. destruct (IH _ _ H Hr) as [Hins _].
    by apply insert_non_empty in Hins.
Qed.

Lemma tiers_from_files_Loaded roots data :
  from_files py_int roots = Loaded data ↔
  read_tiers py_int ∅ (tier_elements roots) = Ok (tiers data) ∧ tiers data ≠ ∅.
Proof.
  unfold from_files. rewrite read_tier_files_flat. simpl.
  destruct (read_tiers py_int ∅ (tier_elements roots)) as [ts|e]; simpl.
  - case_decide as Hts; simpl in Hts.
    + split; [done|]. intros [[= <-] Hne]. done.
    + split.
      * intros [= <-]. done.
      * intros [[= Heq] _]. destruct data as [ts']. simpl in Heq. by subst.
  - split; [done|]. by intros [? _].
Qed.

(** X28. The tiers that [from_files] returns: there is a tier at least;
    every tier is stored under its own rarity and was read from a [tier]
    element of a file; of the [tier] elements of a rarity, in reading
    order, the last one is the tier of that rarity. [from_files] raises
    [RuntimeError] exactly when the files hold no [tier] element. *)
Theorem from_files_tiers (roots : list element) :
  (∀ data, from_files py_int roots = Loaded data →
     tiers data ≠ ∅
     ∧ (∀ n t, tiers data !! n = Some t →
          rarity t = n
          ∧ ∃ xml, xml ∈ tier_elements roots ∧ Tier_from_xml py_int xml = Ok t)
     ∧ (∀ before xml after t,
          tier_elements roots = before ++ xml :: after →
          Tier_from_xml py_int xml = Ok t →
          (∀ y t', y ∈ after → Tier_from_xml py_int y = Ok t' →
                   rarity t' ≠ rarity t) →
          tiers data !! rarity t = Some t))
  ∧ (from_files py_int roots = Failed RuntimeError ↔ tier_elements roots = []).
Proof.
  split.
  - intros data H. apply tiers_from_files_Loaded in H as [H Hne].
    split; [done|]. split.
    + intros n t Ht. destruct (read_tiers_origin _ _ _ _ _ H Ht)
        as [Hempty|(xml & Hin & Hxml & Hrar)];
        [by rewrite lookup_empty in Hempty|].
      split; [done|]. by exists xml.
    + intros before xml after t Hsplit Hxml Hlast.
      rewrite Hsplit, read_tiers_app in H. inv_bind H. simpl in H.
      rewrite Hxml in H. simpl in H.
      eapply read_tiers_keeps; [exact H| |done]. apply lookup_insert_eq.
  - unfold from_files. rewrite read_tier_files_flat. simpl.
    destruct (read_tiers py_int ∅ (tier_elements roots)) as [ts|e] eqn:H; simpl.
    + case_decide as Hts; simpl in Hts.
      * split; [|done]. intros _. by apply read_tiers_empty in H as [_ ?].
      * split; [done|]. intros Hnil. rewrite Hnil in H. injection H as <-. done.
    + split; [done|]. intros Hnil. by rewrite Hnil in H.
Qed.

End WithInt.

(** The file [sample_tiers], read with [sample_int]. *)
Example sample_tiers_loaded :
  from_files sample_int [sample_tiers]
  = Loaded {| tiers := {[3 := {| rarity := 3; ascensions := [180; 360] |}]} |}.
Proof. vm_compute. reflexivity. Qed.

End TrainingDataMore.
